(* ===== verification/_CoqProject ===== *)
-Q . S2P
Prelude.v
Double.v
DoubleFormat.v
Scalar.v
CInt.v
MVector.v
MVectorDouble.v
MVectorInt.v
Random.v
Display.v
CompoundAssign.v
PointerCheatSheet.v
PointerDecls.v
MyFunc.v
