(* ===== verification/Prelude.v ===== *)
(** * A verification library for [mcpp]

    The repository [mcpp] holds two C++ samples.

    - [src/vector_test.cpp] defines [template <typename T> class mvector],
      a [std::vector<T>] with vector arithmetic.  It has member operators
      (unary [-], [+=], [-=], [*=], [/=], [length_sq], [length],
      [near_zero], [random()], [random(min, max)]) and free functions
      ([+], [-], [dot], element-wise [*], [cross], scalar [*] in both
      operand orders, scalar [/], [unit_vector], [operator<<]).  It also
      has the aliases [point = mvector<double>] and
      [color = mvector<int>], and a [main] that prints
      [unit_vector({1,2,3,4,5}).length()].
    - [src/pointer_cheat_sheet.cpp] holds annotated pointer examples.
      - [declaring_pointers] declares the four ways [const] can qualify an
        [int] pointer.
      - [void_pointers] increments a [char] or an [int] through a [void*],
        chosen by a size argument; [main] calls it on an [int] and on a
        [char].
      - Three [myfunc] overloads call [area()] on a [Shape] passed by
        value, by pointer and by reference.

    The parts interact only by calls.  [length] calls [length_sq], which
    calls [dot]; [/] calls scalar [*]; [unit_vector] calls [/] and
    [length]; the [random] fills call the standard library's engine and
    distribution.  Every [mvector] operation is generic in [T] and uses
    only value initialisation, the literal [1], [+ - *], unary [-], [/],
    and conversions to and from [double].  The typeclass [Scalar]
    captures exactly that interface, and each operation is defined and
    proved once against it.

    ** Files, in dependency order

    - [Prelude] (this file):
      - the error type [outcome] (a result [Ok], or undefined behaviour
        [UB] with its reason) and its monad instances;
      - the checked accessors [vget]/[vset] for [std::vector::operator[]];
      - [loop_from], the range-[for] loops with [auto i = &elem - &v[0]];
      - reference definitions ([mapM_from], [zipM_from], [fold2M_from]);
      - the generic lemmas that turn a loop into its reference: an
        element-wise loop is a map, and an accumulation loop is a fold.
    - [Double]: [double] as IEEE-754 binary64.  It uses the Standard
      Library's executable, axiom-free [SpecFloat] with [prec = 53] and
      [emax = 1024], rounding to nearest-even.  The file has the
      conversions between [int] and [double], the literal [1e-8], and the
      commutativity of [+] and [*].
    - [DoubleFormat]: [output << x] for a [double]: [%g] with precision 6.
      The exact value is rounded half to even to six significant digits,
      then laid out in fixed or scientific notation.  A reader of [%g]
      text ([parse_g]) shows the round trip: the text of every finite
      [double] reads back as its value correctly rounded to six
      significant digits.
    - [Scalar]: the typeclass [Scalar T] (what the template needs of [T]),
      [ExactScalar] (arithmetic that never fails), and the [double]
      instance.
    - [CInt]: 32-bit [int].  Signed overflow, division by zero and
      out-of-range [double]-to-[int] conversions are [UB], not wrapped
      values.
    - [MVector]: one definition per operation of [mvector], from its loop,
      over any [Scalar T].  Theorems [members_refine] and
      [free_functions_refine] prove that each loop computes its
      reference.  Theorem [short_operand_ub] covers short operands,
      [binary_ops_ignore_tail] long ones, [cross_behaviour] the sizes of
      [cross], and [ops_keep_length] the size of every result.
    - [MVectorDouble]: [point], [unit_vector] (it compiles only for
      [double]) and the value [main] prints.  It holds the symmetry of
      [+] and [dot], the negative zero that the zero-initialised results
      of [+], [-] and scalar [*] lose, the NaN vector that [unit_vector]
      returns for a zero vector, and the examples of the specification.
    - [MVectorInt]: [color].  The refinement theorem [color_ops_refine]
      proves that each operation is the exact [Z] vector operation when
      the result fits in [int], and overflow UB otherwise.  The algebraic
      laws follow from it.  The file also has the [a / t] defect, the
      exactness bound of [dot], and the exact condition (every product and
      partial sum an [int]) under which [dot] does not overflow.
    - [Random]: the [random] fills with libstdc++'s [minstd_rand0]
      engine, [generate_canonical] and [uniform_real_distribution], all
      in exact binary64.  Theorems: the reseed-per-call behaviour (the
      values depend only on the size, and successive fills repeat one
      sequence).
    - [Display]: [operator<<] with its [size_t] comparison, [int] and
      [double] printing, a parser, and the text [main] writes.  Theorems:
      the exact text and the round trip for colors.
    - [CompoundAssign]: expressions over a store of named vectors.  It
      shows that [(x += a) += b] updates only a temporary, because the
      member operators return [*this] by value.
    - [PointerCheatSheet]: [void_pointers] and [main] over a
      byte-addressed memory (stdpp [gmap]) with little-endian [int]s.
      Theorems: the increment, its frame, its overflow, the [char] wrap,
      and [main]'s output.
    - [PointerDecls]: [declaring_pointers] as declarations that build a
      frame (memory, [int] variables, typed pointers), with the rule of
      line 11 that a [const] pointer needs an initialiser.  The accesses
      the comments describe are not code, so they are not modelled.
    - [MyFunc]: the bodies of the three [myfunc] overloads over an
      interface class [Shape] (the file never declares it), as traces of
      copies, [area()] calls and destructions.  No call of [myfunc]
      appears in the file, so overload resolution is not modelled.

    ** Bounds, fuel and what is left out

    Loops run over the index range fixed at entry (no body changes the
    size of the vector it walks).  Each loop is a structural recursion
    on the iterations that remain, so there is no fuel, and every
    operation is total.  Fuel appears in two helpers of the theorems,
    not in the code: the color parser, where it bounds the number of
    items and is given the length of the text, and [zlog10] below.
    [operator<<] needs [size() <= 2^64], which every [std::vector]
    satisfies.  [generate_canonical] is modelled for the two draws that
    [minstd_rand0] requires.

    [declaring_pointers] places [x] at an address [ax] that every theorem
    quantifies over.  A [Shape] is any instance of the class: its [area]
    and copy constructor are parameters.

    [zlog10] runs the exponent loop with as much fuel as the number has
    binary digits, which [zlog10_spec] shows is enough.

    Not modelled:
    - the sign of a NaN: [SpecFloat] has one NaN, printed [nan], while the
      NaN of [0 * inf] on x86 has its sign bit set and prints [-nan];
    - the [std::cout] writes of [src/pointer_cheat_sheet.cpp] (its models
      return the values printed);
    - [Shape]'s members beyond [area] and its copy constructor, which the
      file does not define.
    - C++ overload resolution for [myfunc], and the pointer accesses that
      the comments of [declaring_pointers] describe: they are rules of
      the language, not code of the repository.

    Not yet modelled: the [double] theory could be extended (bounds of
    [generate_canonical], [near_zero] on colors), and so could the
    expression model, to the other compound assignments. *)

From Stdlib Require Import ZArith Lia.
From stdpp Require Export base list.

(** ** Undefined behaviour as a value *)

(** Why a C++ evaluation has undefined behaviour. *)
Inductive ub :=
  | UB_out_of_range (i : nat)  (** [v[i]] with [i >= v.size()] *)
  | UB_div_by_zero             (** integer division by zero *)
  | UB_overflow                (** signed integer overflow *)
  | UB_float_to_int            (** [double] to [int] out of range or NaN *)
  | UB_invalid_pointer.        (** access through a pointer to no object *)

(** The result of evaluating a C++ expression or statement. *)
Inductive outcome (A : Type) :=
  | Ok (a : A)
  | UB (u : ub).
Arguments Ok {A} a.
Arguments UB {A} u.

#[export] Instance outcome_ret : MRet outcome := fun _ x => Ok x.
#[export] Instance outcome_bind : MBind outcome :=
  fun _ _ k m => match m with Ok x => k x | UB u => UB u end.
#[export] Instance outcome_fmap : FMap outcome :=
  fun _ _ f m => match m with Ok x => Ok (f x) | UB u => UB u end.

Declare Scope outcome_scope.
Delimit Scope outcome_scope with outcome.
(** [m ?= u] says that [m] stops with undefined behaviour [u]. *)
Notation "m ?= u" := (m = UB u) (at level 70, no associativity) : outcome_scope.
Open Scope outcome_scope.

Definition is_ok {A} (m : outcome A) : bool :=
  match m with Ok _ => true | UB _ => false end.

(** ** Checked vector access ([std::vector<T>::operator[]]) *)

(** Reading [v[i]]; out of range is undefined behaviour. *)
Definition vget {A} (v : list A) (i : nat) : outcome A :=
  match v !! i with Some x => Ok x | None => UB (UB_out_of_range i) end.

(** Writing [v[i] = x]; out of range is undefined behaviour. *)
Definition vset {A} (v : list A) (i : nat) (x : A) : outcome (list A) :=
  if decide (i < length v) then Ok (<[i:=x]> v) else UB (UB_out_of_range i).

(** ** Loops

    [loop_from body i n s] runs [body] at the indices [i, ..., i+n-1],
    threading the state [s]. *)
Fixpoint loop_from {St} (body : nat -> St -> outcome St) (i n : nat) (s : St)
    : outcome St :=
  match n with
  | O => mret s
  | S n' => s' ← body i s; loop_from body (S i) n' s'
  end.

(** The body [v[i] = h(i, v[i])], read-modify-write of element [i]. *)
Definition upd_body {A} (h : nat -> A -> outcome A) (i : nat) (v : list A)
    : outcome (list A) :=
  r ← vget v i; x ← h i r; vset v i x.

(** The body [v[i] = g(i)], which does not read [v[i]]. *)
Definition set_body {A} (g : nat -> outcome A) (i : nat) (v : list A)
    : outcome (list A) :=
  x ← g i; vset v i x.

(** Reference: [h] applied to each element with its index, left to right. *)
Fixpoint mapM_from {A B} (h : nat -> A -> outcome B) (k : nat) (l : list A)
    : outcome (list B) :=
  match l with
  | [] => mret []
  | x :: l' => y ← h k x; ys ← mapM_from h (S k) l'; mret (y :: ys)
  end.

(** Reference: a left fold with the index, stopping at the first UB. *)
Fixpoint foldM_from {A St} (h : nat -> St -> A -> outcome St) (k : nat)
    (l : list A) (s : St) : outcome St :=
  match l with
  | [] => mret s
  | x :: l' => s' ← h k s x; foldM_from h (S k) l' s'
  end.

(** Reference: [f] applied to the pairs of elements of [l1] and [l2], left
    to right.  The index runs over [l1]; reading [l2] past its end is
    undefined behaviour, and extra elements of [l2] are never read. *)
Fixpoint zipM_from {A B C} (f : A -> B -> outcome C) (k : nat) (l1 : list A)
    (l2 : list B) : outcome (list C) :=
  match l1, l2 with
  | [], _ => mret []
  | x :: l1', y :: l2' => z ← f x y; zs ← zipM_from f (S k) l1' l2'; mret (z :: zs)
  | _ :: _, [] => UB (UB_out_of_range k)
  end.

(** Reference: a left fold over the pairs of elements of [l1] and [l2],
    with the same treatment of a short [l2] as [zipM_from]. *)
Fixpoint fold2M_from {A B St} (f : St -> A -> B -> outcome St) (k : nat)
    (l1 : list A) (l2 : list B) (s : St) : outcome St :=
  match l1, l2 with
  | [], _ => mret s
  | x :: l1', y :: l2' => s' ← f s x y; fold2M_from f (S k) l1' l2' s'
  | _ :: _, [] => UB (UB_out_of_range k)
  end.

(** ** Automation *)

Create Rewrite HintDb outcome.

Lemma bind_Ok {A B} (x : A) (k : A -> outcome B) : (Ok x ≫= k) = k x.
Proof. reflexivity. Qed.

Lemma bind_UB {A B} (u : ub) (k : A -> outcome B) : (UB u ≫= k) = UB u.
Proof. reflexivity. Qed.

Lemma bind_ret_r {A} (m : outcome A) : (m ≫= mret) = m.
Proof. by destruct m. Qed.

Lemma bind_assoc {A B C} (m : outcome A) (k : A -> outcome B)
    (k' : B -> outcome C) :
  ((m ≫= k) ≫= k') = (m ≫= fun x => k x ≫= k').
Proof. by destruct m. Qed.

Lemma fmap_bind {A B} (f : A -> B) (m : outcome A) :
  (f <$> m) = (m ≫= fun x => mret (f x)).
Proof. by destruct m. Qed.

#[export] Hint Rewrite @bind_Ok @bind_UB @bind_ret_r @bind_assoc : outcome.

(** Rewrite the monad laws, then unfold [mret]. *)
Ltac outcome_simpl :=
  repeat (autorewrite with outcome in *; cbn [mret outcome_ret] in *).

Lemma vget_lt {A} (v : list A) i : i < length v -> exists x, vget v i = Ok x /\ v !! i = Some x.
Proof.
  intros Hi. destruct (lookup_lt_is_Some_2 v i Hi) as [x Hx].
  exists x. unfold vget. by rewrite Hx.
Qed.

Lemma vget_ge {A} (v : list A) i : length v <= i -> vget v i = UB (UB_out_of_range i).
Proof. intros Hi. unfold vget. by rewrite lookup_ge_None_2. Qed.

Lemma vget_app_r {A} (p l : list A) x : vget (p ++ x :: l) (length p) = Ok x.
Proof. unfold vget. by rewrite lookup_app_r, Nat.sub_diag by lia. Qed.

Lemma vset_app_r {A} (p l : list A) x y :
  vset (p ++ x :: l) (length p) y = Ok (p ++ y :: l).
Proof.
  unfold vset. rewrite decide_True by (rewrite length_app; simpl; lia).
  by rewrite insert_app_r_alt, Nat.sub_diag by lia.
Qed.

Lemma vset_lt {A} (v : list A) i x : i < length v -> vset v i x = Ok (<[i:=x]> v).
Proof. intros Hi. unfold vset. by rewrite decide_True. Qed.

Lemma vset_ge {A} (v : list A) i x : length v <= i -> vset v i x = UB (UB_out_of_range i).
Proof. intros Hi. unfold vset. rewrite decide_False; [done | lia]. Qed.

#[export] Hint Rewrite @vget_app_r @vset_app_r : outcome.

(** ** Generic loop lemmas *)

(** Running [n1 + n2] iterations is running [n1], then [n2] more. *)
Lemma loop_from_add {St} (body : nat -> St -> outcome St) i n1 n2 s :
  loop_from body i (n1 + n2) s =
    s' ← loop_from body i n1 s; loop_from body (i + n1) n2 s'.
Proof.
  revert i s. induction n1 as [|n1 IH]; intros i s; simpl.
  - by rewrite Nat.add_0_r.
  - destruct (body i s); simpl; [|done].
    rewrite IH. by replace (S i + n1) with (i + S n1) by lia.
Qed.

(** A loop body is element-wise with [h] when the iteration at index [i]
    replaces element [i] of the state [v] by [h i v[i]] and does nothing
    else. *)
Definition elementwise {A} (body : nat -> list A -> outcome (list A))
    (h : nat -> A -> outcome A) : Prop :=
  forall p x l, body (length p) (p ++ x :: l) = y ← h (length p) x; mret (p ++ y :: l).

Lemma upd_body_elementwise {A} (h : nat -> A -> outcome A) : elementwise (upd_body h) h.
Proof.
  intros p x l. unfold upd_body. rewrite vget_app_r, bind_Ok.
  destruct (h (length p) x); simpl; [apply vset_app_r | done].
Qed.

Lemma set_body_elementwise {A} (g : nat -> outcome A) :
  elementwise (set_body g) (fun i _ => g i).
Proof.
  intros p x l. unfold set_body.
  destruct (g (length p)); simpl; [apply vset_app_r | done].
Qed.

(** An element-wise loop over the suffix [l] of [p ++ l], started at index
    [length p], is [mapM_from] over [l]. *)
Lemma loop_elementwise_app {A} body (h : nat -> A -> outcome A) (p l : list A) :
  elementwise body h ->
  loop_from body (length p) (length l) (p ++ l) =
    ys ← mapM_from h (length p) l; mret (p ++ ys).
Proof.
  intros Hb. revert p. induction l as [|x l IH]; intros p; simpl.
  - by rewrite app_nil_r.
  - rewrite Hb. destruct (h (length p) x) as [y|u]; simpl; [|done].
    replace (p ++ y :: l) with ((p ++ [y]) ++ l) by (by rewrite <- app_assoc).
    replace (S (length p)) with (length (p ++ [y])) by (rewrite length_app; simpl; lia).
    rewrite IH. destruct (mapM_from h (length (p ++ [y])) l); simpl; [|done].
    by rewrite <- app_assoc.
Qed.

(** The whole element-wise loop over [v] is [mapM_from] from index 0. *)
Lemma loop_elementwise {A} body (h : nat -> A -> outcome A) (v : list A) :
  elementwise body h -> loop_from body 0 (length v) v = mapM_from h 0 v.
Proof.
  intros Hb. pose proof (loop_elementwise_app body h [] v Hb) as E. simpl in E.
  rewrite E. apply bind_ret_r.
Qed.

(** The same, with the iteration count given as any [n] equal to the
    length (the loops of [mul] and [scale] count the operand, not the
    result). *)
Lemma loop_elementwise_n {A} body (h : nat -> A -> outcome A) (v : list A) n :
  elementwise body h -> n = length v -> loop_from body 0 n v = mapM_from h 0 v.
Proof. intros Hb ->. by apply loop_elementwise. Qed.

(** An accumulation loop whose body reads [l[i]] is [foldM_from] over [l]. *)
Lemma loop_fold_app {A St} (h : nat -> St -> A -> outcome St) (p l : list A) (s : St) :
  loop_from (fun i acc => x ← vget (p ++ l) i; h i acc x) (length p) (length l) s =
    foldM_from h (length p) l s.
Proof.
  revert p s. induction l as [|x l IH]; intros p s; simpl; [done|].
  rewrite vget_app_r. simpl. destruct (h (length p) s x) as [s'|u]; simpl; [|done].
  replace (p ++ x :: l) with ((p ++ [x]) ++ l) by (by rewrite <- app_assoc).
  replace (S (length p)) with (length (p ++ [x])) by (rewrite length_app; simpl; lia).
  apply IH.
Qed.

Lemma loop_fold {A St} (h : nat -> St -> A -> outcome St) (l : list A) (s : St) :
  loop_from (fun i acc => x ← vget l i; h i acc x) 0 (length l) s = foldM_from h 0 l s.
Proof. exact (loop_fold_app h [] l s). Qed.

(** A successful [mapM_from] keeps the length. *)
Lemma mapM_from_length {A B} (h : nat -> A -> outcome B) k l ys :
  mapM_from h k l = Ok ys -> length ys = length l.
Proof.
  revert k ys. induction l as [|x l IH]; intros k ys; simpl.
  - by intros [= <-].
  - destruct (h k x); simpl; [|done].
    destruct (mapM_from h (S k) l) eqn:E; simpl; [|done].
    intros [= <-]. simpl. f_equal. by eapply IH.
Qed.

(** [mapM_from] of a total function is a [map] with the index. *)
Lemma mapM_from_total {A B} (f : nat -> A -> B) k l :
  mapM_from (fun i x => Ok (f i x)) k l = Ok (imap (fun i => f (k + i)) l).
Proof.
  revert k. induction l as [|x l IH]; intros k; simpl; [done|].
  rewrite IH. simpl. rewrite Nat.add_0_r. do 2 f_equal.
  apply imap_ext. intros i y _. simpl. f_equal. lia.
Qed.

(** ** Loops that read other vectors by index

    In these lemmas the sources are [p ++ a] and [q ++ b], read at
    [length p + j] (the [j]-th element of [a] or [b]); the loops of the
    source have [p = q = []]. *)

Lemma vget_app_nil {A} (q : list A) : vget (q ++ []) (length q) = UB (UB_out_of_range (length q)).
Proof. rewrite app_nil_r. apply vget_ge. done. Qed.

Lemma app_snoc_cons {A} (p l : list A) x : p ++ x :: l = (p ++ [x]) ++ l.
Proof. by rewrite <- app_assoc. Qed.

Lemma length_snoc {A} (p : list A) x : S (length p) = length (p ++ [x]).
Proof. rewrite length_app. simpl. lia. Qed.

(** An element-wise map whose function reads [b[i]] is a [zipM_from]. *)
Lemma mapM_from_vget {A B C} (g : A -> B -> outcome C) (q : list B) (l : list A) (b : list B) :
  mapM_from (fun i r => y ← vget (q ++ b) i; g r y) (length q) l = zipM_from g (length q) l b.
Proof.
  revert q b. induction l as [|x l IH]; intros q b; [done|].
  destruct b as [|y b]; simpl; [by rewrite vget_app_nil|].
  rewrite vget_app_r. simpl. destruct (g x y); simpl; [|done].
  rewrite app_snoc_cons, (length_snoc q y), IH. done.
Qed.

(** A map over [replicate n z] whose function reads [a[i]] and [b[i]] is a
    [zipM_from] of [a] and [b]. *)
Lemma mapM_from_vget2 {A B C} (f : C -> A -> B -> outcome C) (z : C)
    (p : list A) (q : list B) (a : list A) (b : list B) :
  length q = length p ->
  mapM_from (fun i r => x ← vget (p ++ a) i; y ← vget (q ++ b) i; f r x y)
    (length p) (replicate (length a) z) = zipM_from (f z) (length p) a b.
Proof.
  revert p q b. induction a as [|x a IH]; intros p q b Hl; [done|].
  simpl. rewrite vget_app_r. simpl.
  destruct b as [|y b]; simpl; [by rewrite <- Hl, vget_app_nil|].
  rewrite <- Hl, vget_app_r, Hl. simpl. destruct (f z x y); simpl; [|done].
  rewrite (app_snoc_cons p), (app_snoc_cons q), (length_snoc p x), IH by (rewrite !length_app; simpl; lia).
  done.
Qed.

(** [zipM_from] of [replicate (length a) z] with [a] is a map over [a]. *)
Lemma zipM_from_replicate {A C} (g : C -> A -> outcome C) z k (a : list A) :
  zipM_from g k (replicate (length a) z) a = mapM (g z) a.
Proof.
  revert k. induction a as [|x a IH]; intros k; [done|].
  simpl. destruct (g z x); simpl; [|done]. by rewrite IH.
Qed.

(** An accumulation loop whose body reads [a[i]] and [b[i]] is a
    [fold2M_from]. *)
Lemma loop_fold2 {A B St} (f : St -> A -> B -> outcome St) (p : list A) (q : list B)
    (a : list A) (b : list B) (s : St) :
  length q = length p ->
  loop_from (fun i acc => x ← vget (p ++ a) i; y ← vget (q ++ b) i; f acc x y)
    (length p) (length a) s = fold2M_from f (length p) a b s.
Proof.
  revert p q b s. induction a as [|x a IH]; intros p q b s Hl; [done|].
  simpl. rewrite vget_app_r. simpl.
  destruct b as [|y b]; simpl; [by rewrite <- Hl, vget_app_nil|].
  rewrite <- Hl, vget_app_r, Hl. simpl. destruct (f s x y); simpl; [|done].
  rewrite (app_snoc_cons p), (app_snoc_cons q), (length_snoc p x), IH by (rewrite !length_app; simpl; lia).
  done.
Qed.

(** ** Facts on the references *)

Lemma zipM_from_length {A B C} (f : A -> B -> outcome C) k l1 l2 l :
  zipM_from f k l1 l2 = Ok l -> length l = length l1.
Proof.
  revert k l2 l. induction l1 as [|x l1 IH]; intros k [|y l2] l; simpl; try by intros [= <-].
  destruct (f x y); simpl; [|done].
  destruct (zipM_from f (S k) l1 l2) eqn:E; simpl; [|done].
  intros [= <-]. simpl. f_equal. by eapply IH.
Qed.

(** Elements of [l2] past the length of [l1] are never read. *)
Lemma zipM_from_take {A B C} (f : A -> B -> outcome C) k l1 l2 :
  zipM_from f k l1 l2 = zipM_from f k l1 (take (length l1) l2).
Proof.
  revert k l2. induction l1 as [|x l1 IH]; intros k [|y l2]; simpl; try done.
  destruct (f x y); simpl; [|done]. by rewrite <- IH.
Qed.

Lemma fold2M_from_take {A B St} (f : St -> A -> B -> outcome St) k l1 l2 s :
  fold2M_from f k l1 l2 s = fold2M_from f k l1 (take (length l1) l2) s.
Proof.
  revert k l2 s. induction l1 as [|x l1 IH]; intros k [|y l2] s; simpl; try done.
  destruct (f s x y); simpl; [|done]. by rewrite <- IH.
Qed.

(** When [f] never fails, a short [l2] fails exactly at its end. *)
Lemma zipM_from_short {A B C} (f : A -> B -> outcome C) k l1 l2 :
  (forall x y, is_ok (f x y) = true) -> length l2 < length l1 ->
  zipM_from f k l1 l2 = UB (UB_out_of_range (k + length l2)).
Proof.
  intros Hf. revert k l2. induction l1 as [|x l1 IH]; intros k [|y l2] Hl; simpl in *; try lia.
  - by rewrite Nat.add_0_r.
  - destruct (f x y) eqn:E; [|by specialize (Hf x y); rewrite E in Hf].
    simpl. rewrite IH by lia. simpl. do 2 f_equal. lia.
Qed.

Lemma fold2M_from_short {A B St} (f : St -> A -> B -> outcome St) k l1 l2 s :
  (forall s x y, is_ok (f s x y) = true) -> length l2 < length l1 ->
  fold2M_from f k l1 l2 s = UB (UB_out_of_range (k + length l2)).
Proof.
  intros Hf. revert k l2 s. induction l1 as [|x l1 IH]; intros k [|y l2] s Hl; simpl in *; try lia.
  - by rewrite Nat.add_0_r.
  - destruct (f s x y) eqn:E; [|by specialize (Hf s x y); rewrite E in Hf].
    simpl. rewrite IH by lia. do 2 f_equal. lia.
Qed.

(** [zipM_from] of a total function on a long enough [l2] is [zip_with]. *)
Lemma zipM_from_total {A B C} (f : A -> B -> C) k l1 l2 :
  length l1 <= length l2 ->
  zipM_from (fun x y => Ok (f x y)) k l1 l2 = Ok (zip_with f l1 l2).
Proof.
  revert k l2. induction l1 as [|x l1 IH]; intros k [|y l2] Hl; simpl in *; try done; try lia.
  rewrite IH by lia. done.
Qed.

Lemma mapM_total {A B} (f : A -> B) (l : list A) : mapM (fun x => Ok (f x)) l = Ok (map f l).
Proof. induction l as [|x l IH]; simpl; [done|]. by rewrite IH. Qed.

(** [mapM_from] of a function that ignores the index is stdpp's [mapM]. *)
Lemma mapM_from_const {A B} (f : A -> outcome B) k (l : list A) :
  mapM_from (fun _ x => f x) k l = mapM f l.
Proof.
  revert k. induction l as [|x l IH]; intros k; simpl; [done|].
  destruct (f x); simpl; [|done]. by rewrite IH.
Qed.

(** A successful [mapM] keeps the length. *)
Lemma mapM_ok_length {A B} (f : A -> outcome B) (l : list A) ys :
  mapM f l = Ok ys -> length ys = length l.
Proof.
  revert ys. induction l as [|x l IH]; intros ys; simpl; [by intros [= <-]|].
  destruct (f x); simpl; [|done].
  destruct (mapM f l) eqn:E; simpl; [|done].
  intros [= <-]. simpl. f_equal. by apply IH.
Qed.

Lemma is_ok_bind {A B} (m : outcome A) (k : A -> outcome B) :
  is_ok m = true -> (forall x, is_ok (k x) = true) -> is_ok (m ≫= k) = true.
Proof. destruct m; simpl; [auto | done]. Qed.

(** Swapping the operands of a symmetric [f] on equal-length lists. *)
Lemma zipM_from_flip {A C} (f : A -> A -> outcome C) k l1 l2 :
  (forall x y, f x y = f y x) -> length l1 = length l2 ->
  zipM_from f k l1 l2 = zipM_from f k l2 l1.
Proof.
  intros Hf. revert k l2. induction l1 as [|x l1 IH]; intros k [|y l2] Hl; simpl in *; try done.
  rewrite Hf. destruct (f y x); simpl; [|done]. rewrite IH by lia. done.
Qed.

Lemma fold2M_from_flip {A St} (f : St -> A -> A -> outcome St) k l1 l2 s :
  (forall s x y, f s x y = f s y x) -> length l1 = length l2 ->
  fold2M_from f k l1 l2 s = fold2M_from f k l2 l1 s.
Proof.
  intros Hf. revert k l2 s. induction l1 as [|x l1 IH]; intros k [|y l2] s Hl; simpl in *; try done.
  rewrite Hf. destruct (f s y x); simpl; [|done]. apply IH. lia.
Qed.

(** [fold2M_from] of a total function on a long enough [l2] is a
    [fold_left] over the pairs. *)
Lemma fold2M_from_total {A B St} (f : St -> A -> B -> St) k l1 l2 s :
  length l1 <= length l2 ->
  fold2M_from (fun s x y => Ok (f s x y)) k l1 l2 s =
    Ok (fold_left (fun s xy => f s xy.1 xy.2) (zip l1 l2) s).
Proof.
  revert k l2 s. induction l1 as [|x l1 IH]; intros k [|y l2] s Hl; simpl in *; try done; try lia.
  apply IH. lia.
Qed.

Lemma zipM_from_ext {A B C} (f g : A -> B -> outcome C) k l1 l2 :
  (forall x y, f x y = g x y) -> zipM_from f k l1 l2 = zipM_from g k l1 l2.
Proof.
  intros Hfg. revert k l2. induction l1 as [|x l1 IH]; intros k [|y l2]; simpl; try done.
  by rewrite Hfg, IH.
Qed.

Lemma mapM_ext_outcome {A B} (f g : A -> outcome B) (l : list A) :
  (forall x, f x = g x) -> mapM f l = mapM g l.
Proof. intros Hfg. induction l as [|x l IH]; simpl; [done|]. by rewrite Hfg, IH. Qed.
