(* ===== verification/Double.v ===== *)
(** * C++ [double] as IEEE-754 binary64

    [double] is the Standard Library's specification of binary64,
    [SpecFloat.spec_float] with 53 bits of precision and [emax = 1024].  It
    rounds to nearest, ties to even, as x86-64 and every mainstream C++
    target do.  Its operations are Gallina functions over [Z], so every
    value in this development computes and nothing is assumed.  (NaN
    payloads are not represented; the code never inspects them.)

    The file has the arithmetic of [double], the conversions that
    [vector_test.cpp] performs between [double] and [int] ([int] to [double]
    is exact, [double] to [int] truncates toward zero), the literal [1e-8]
    of [near_zero], and facts that hold exactly in IEEE arithmetic. *)

From Stdlib Require Import ZArith Lia Floats.SpecFloat.
From S2P Require Import Prelude.

Local Open Scope Z_scope.

Definition double := spec_float.

Definition prec : Z := 53.
Definition emax : Z := 1024.

Definition dadd : double -> double -> double := SFadd prec emax.
Definition dsub : double -> double -> double := SFsub prec emax.
Definition dmul : double -> double -> double := SFmul prec emax.
Definition ddiv : double -> double -> double := SFdiv prec emax.
Definition dsqrt : double -> double := SFsqrt prec emax.
Definition dopp : double -> double := SFopp.
Definition dabs : double -> double := SFabs.
(** [x < y]: false when either operand is NaN. *)
Definition dltb : double -> double -> bool := SFltb.
(** [x == y]: IEEE equality ([+0 == -0], NaN is not equal to itself). *)
Definition deqb : double -> double -> bool := SFeqb.

(** [+0.0], the value of [double()] and of the literal [0]. *)
Definition dzero : double := S754_zero false.

(** Conversion of an integer to [double] (used for [int] to [double] and for
    integer literals such as [1] in [1/t]).  It is rounded to nearest, and
    exact for every [int]. *)
Definition d_of_Z (z : Z) : double := binary_normalize prec emax z 0 false.

(** The literal [1e-8] of [near_zero]: the double nearest to 10^-8.
    Division of the exact values 1 and 10^8 is correctly rounded, so it
    gives that double. *)
Definition epsilon : double := ddiv (d_of_Z 1) (d_of_Z (10 ^ 8)).

(** Truncation toward zero of a finite double (C++ floating-integral
    conversion).  Infinities and NaN have no integer value. *)
Definition dtrunc (d : double) : option Z :=
  match d with
  | S754_zero _ => Some 0
  | S754_finite s m e =>
      let mag := if Z.leb 0 e then Z.shiftl (Zpos m) e else Z.shiftr (Zpos m) (- e) in
      Some (if s then - mag else mag)
  | S754_infinity _ | S754_nan => None
  end.

(** ** Exact facts of IEEE arithmetic *)

Lemma dopp_involutive x : dopp (dopp x) = x.
Proof. destruct x; simpl; rewrite ?Bool.negb_involutive; done. Qed.

(** IEEE addition is commutative, signed zeros and NaN included. *)
Lemma dadd_comm x y : dadd x y = dadd y x.
Proof.
  destruct x as [sx|sx| |sx mx ex], y as [sy|sy| |sy my ey];
    try destruct sx; try destruct sy; try reflexivity;
    unfold dadd, SFadd; rewrite Z.min_comm, Z.add_comm; reflexivity.
Qed.

(** IEEE multiplication is commutative. *)
Lemma dmul_comm x y : dmul x y = dmul y x.
Proof.
  destruct x as [sx|sx| |sx mx ex], y as [sy|sy| |sy my ey];
    unfold dmul, SFmul; rewrite ?(Bool.xorb_comm sx sy); try reflexivity.
  by rewrite Pos.mul_comm, Z.add_comm.
Qed.

(** [+0.0] is a left identity of addition except on [-0.0], where the
    result is [+0.0]: the effect of the zero-initialised accumulators of
    [vector_test.cpp]. *)
Lemma dadd_zero_l x : dadd dzero x = match x with S754_zero _ => dzero | _ => x end.
Proof. by destruct x as [[]|[]| |]. Qed.

Lemma dabs_idem x : dabs (dabs x) = dabs x.
Proof. by destruct x. Qed.

Example epsilon_value : epsilon = S754_finite false 6044629098073146 (-79).
Proof. vm_compute. reflexivity. Qed.
