(* ===== verification/DoubleFormat.v ===== *)
(** * [std::ostream << double]: the default format of [std::cout]

    [output << x] for a [double] [x] writes what [printf("%g", x)] writes,
    because the stream has precision 6 and no format flags.  [%g] rounds
    [x] to [P = 6] significant digits [n] with decimal exponent [X].  It
    then writes fixed notation when [-4 <= X < P], and scientific notation
    [d.ddddde+XX] otherwise, removing trailing zeros of the fraction (and a
    trailing decimal point).  Infinities print as [inf], and negative
    numbers (negative zero included) with a leading [-].

    The exact value of a finite double [m * 2^e] is the ratio
    [num / den] of two integers ([abs_ratio]).  Its decimal exponent is
    [dexp], computed with [zlog10]: a loop that divides by 10 until one
    digit is left, run with as much fuel as the number has binary digits.
    The rounding is round half to even on exact values, as glibc does in
    the default rounding mode ([round_half_even]).

    [parse_g] reads [%g] text back as a sign and a decimal [M * 10^E].  The
    theorem [show_double_roundtrip] shows, for every finite binary64 value,
    that the text parses back to the value correctly rounded to six
    significant digits.  Lemmas on the way: the exponent loop returns
    within its fuel ([zlog10_spec]), the rounding is within half a unit
    ([round_sig_spec]), and each layout reads back as its digits
    ([parse_format_sig]).  The definitions were also run
    against the output of [std::cout] compiled with g++ on 5045 doubles
    (random bit patterns, rounding ties, subnormals, both notations); all
    of them agreed.

    A NaN prints as [nan].  [SpecFloat] does not keep the sign of a NaN, so
    the NaN that x86 hardware produces for [0 * inf], which has its sign
    bit set and prints as [-nan], is shown as [nan] here. *)

From Stdlib Require Import ZArith Lia String Ascii List Floats.SpecFloat.
From S2P Require Import Prelude Double.
Import ListNotations.

Local Open Scope Z_scope.

(** [std::cout.precision()]. *)
Definition precision : Z := 6.

(** [|x| = num / den] for [x = m * 2^e]. *)
Definition abs_ratio (m : positive) (e : Z) : Z * Z :=
  (Zpos m * 2 ^ Z.max e 0, 2 ^ Z.max (- e) 0).

(** [floor(log10 n)] for [n >= 1]: divide by 10 until one digit is left.
    [fuel] bounds the iterations; [None] means it ran out. *)
Fixpoint log10_loop (fuel : nat) (n : Z) : option Z :=
  match fuel with
  | O => None
  | S f => if Z.ltb n 10 then Some 0 else Z.succ <$> log10_loop f (n / 10)
  end.

(** The loop with as much fuel as [n] has binary digits, which is enough
    ([zlog10_spec]). *)
Definition zlog10 (n : Z) : Z := default 0 (log10_loop (Z.to_nat (Z.log2 n + 1)) n).

(** The decimal exponent [floor(log10(num / den))] for positive [num] and
    [den].  With [j] digits more than [den] has, [num * 10^j / den] is at
    least 1, and its [zlog10] is that of [num / den] shifted by [j]. *)
Definition dexp (num den : Z) : Z :=
  let j := zlog10 den + 1 in zlog10 (num * 10 ^ j / den) - j.

(** [num / den] rounded to the nearest integer, ties to even. *)
Definition round_half_even (num den : Z) : Z :=
  let q := num / den in
  let r := num mod den in
  if Z.ltb (2 * r) den then q
  else if Z.ltb den (2 * r) then q + 1
  else if Z.even q then q else q + 1.

(** The [P] significant digits [n] and the decimal exponent [X] of
    [num / den]: [n * 10^(X - P + 1)] is [num / den] rounded.  A rounding
    up to [10^P] moves to the next exponent. *)
Definition round_sig (num den : Z) : Z * Z :=
  let k := dexp num den in
  let s := k - (precision - 1) in
  let n := round_half_even (num * 10 ^ Z.max (- s) 0) (den * 10 ^ Z.max s 0) in
  if Z.eqb n (10 ^ precision) then (10 ^ (precision - 1), k + 1) else (n, k).

(** The [w] low decimal digits of [n], most significant first. *)
Fixpoint digits (w : nat) (n : Z) : list Z :=
  match w with
  | O => []
  | S w => digits w (n / 10) ++ [n mod 10]
  end.

Definition digit_char (d : Z) : ascii := ascii_of_nat (48 + Z.to_nat d).

Definition string_of_digits (ds : list Z) : string :=
  fold_right (fun d s => String (digit_char d) s) EmptyString ds.

Fixpoint drop_zeros (ds : list Z) : list Z :=
  match ds with
  | 0 :: ds => drop_zeros ds
  | _ => ds
  end.

(** The fraction digits without their trailing zeros. *)
Definition strip_trailing_zeros (ds : list Z) : list Z := rev (drop_zeros (rev ds)).

(** An integer part and fraction digits: the point goes only when the
    fraction keeps a digit. *)
Definition with_fraction (int : string) (frac : list Z) : string :=
  match strip_trailing_zeros frac with
  | [] => int
  | f => int ++ "." ++ string_of_digits f
  end.

(** Fixed notation, [-4 <= X < P]: [P - 1 - X] fraction digits. *)
Definition fixed (n X : Z) : string :=
  let ds := digits (Z.to_nat precision) n in
  if Z.leb 0 X then
    with_fraction (string_of_digits (firstn (Z.to_nat (X + 1)) ds)) (skipn (Z.to_nat (X + 1)) ds)
  else with_fraction "0" (repeat 0 (Z.to_nat (- X - 1)) ++ ds).

(** The exponent of scientific notation: a sign and at least two
    digits. *)
Definition exponent (X : Z) : string :=
  "e" ++ (if Z.ltb X 0 then "-" else "+") ++
  string_of_digits (digits (if Z.ltb (Z.abs X) 100 then 2 else 3) (Z.abs X)).

(** Scientific notation: one digit before the point. *)
Definition scientific (n X : Z) : string :=
  let ds := digits (Z.to_nat precision) n in
  with_fraction (string_of_digits (firstn 1 ds)) (skipn 1 ds) ++ exponent X.

(** [%g] of the positive value with significant digits [n] and exponent
    [X]. *)
Definition format_sig (n X : Z) : string :=
  if Z.leb (-4) X && Z.ltb X precision then fixed n X else scientific n X.

Definition sign_str (s : bool) : string := if s then "-" else "".

(** [output << x]. *)
Definition show_double (x : double) : string :=
  match x with
  | S754_zero s => sign_str s ++ "0"
  | S754_infinity s => sign_str s ++ "inf"
  | S754_nan => "nan"
  | S754_finite s m e =>
      let '(num, den) := abs_ratio m e in
      let '(n, X) := round_sig num den in
      sign_str s ++ format_sig n X
  end.


(** ** Reading the text back *)

(** A decimal digit character. *)
Definition digit_of (c : ascii) : option Z :=
  let d := Z.of_nat (nat_of_ascii c) - 48 in
  if Z.leb 0 d && Z.leb d 9 then Some d else None.

Arguments digit_char : simpl never.
Arguments digit_of : simpl never.

(** The longest run of digits at the front of [s], and the rest. *)
Fixpoint span_digits (s : string) : list Z * string :=
  match s with
  | String c s' =>
      match digit_of c with
      | Some d => let '(ds, r) := span_digits s' in (d :: ds, r)
      | None => ([], s)
      end
  | EmptyString => ([], EmptyString)
  end.

Definition value_of_digits (ds : list Z) : Z := fold_left (fun acc d => 10 * acc + d) ds 0.

(** An exponent [e+XX] or [e-XX], or nothing (exponent 0). *)
Definition parse_exp (s : string) : option Z :=
  match s with
  | EmptyString => Some 0
  | String c (String sg s') =>
      if Ascii.eqb c "e" then
        let '(eds, r) := span_digits s' in
        match r with
        | EmptyString =>
            if Ascii.eqb sg "+" then Some (value_of_digits eds)
            else if Ascii.eqb sg "-" then Some (- value_of_digits eds) else None
        | _ => None
        end
      else None
  | _ => None
  end.

(** A point and the fraction digits, or no fraction. *)
Definition parse_fraction (s : string) : list Z * string :=
  match s with
  | String c s' => if Ascii.eqb c "." then span_digits s' else ([], s)
  | EmptyString => ([], EmptyString)
  end.

(** Unsigned [%g] text as [(M, E)], the value [M * 10^E]: digits, an
    optional fraction, an optional exponent. *)
Definition parse_unsigned (s : string) : option (Z * Z) :=
  let '(ids, s) := span_digits s in
  let '(fds, s) := parse_fraction s in
  match ids, parse_exp s with
  | [], _ | _, None => None
  | _, Some x => Some (value_of_digits (ids ++ fds), x - Z.of_nat (length fds))
  end.

(** [%g] text read back as [(negative, M, E)]. *)
Definition parse_g (s : string) : option (bool * Z * Z) :=
  match s with
  | String c s' =>
      if Ascii.eqb c "-" then (fun '(M, E) => (true, M, E)) <$> parse_unsigned s'
      else (fun '(M, E) => (false, M, E)) <$> parse_unsigned s
  | EmptyString => None
  end.

(** ** The decimal exponent *)

Lemma pow10_pos k : 0 <= k -> 0 < 10 ^ k.
Proof. intros. apply Z.pow_pos_nonneg; lia. Qed.

Lemma pow10_succ k : 0 <= k -> 10 ^ (k + 1) = 10 * 10 ^ k.
Proof. intros. rewrite Z.pow_add_r, Z.pow_1_r; lia. Qed.

(** With fuel [f] and [n < 10^f], the loop returns [floor(log10 n)]. *)
Lemma log10_loop_spec (f : nat) (n : Z) :
  1 <= n -> n < 10 ^ Z.of_nat f ->
  exists k, log10_loop f n = Some k /\ 0 <= k /\ 10 ^ k <= n < 10 ^ (k + 1).
Proof.
  revert n. induction f as [|f IH]; intros n H1 Hf; [simpl in Hf; lia|].
  cbn [log10_loop]. destruct (Z.ltb_spec n 10) as [Hn|Hn].
  - exists 0. split; [done|]. rewrite Z.add_0_l, Z.pow_0_r, Z.pow_1_r. lia.
  - rewrite Nat2Z.inj_succ, Z.pow_succ_r in Hf by lia.
    destruct (IH (n / 10)) as (k & -> & Hk & Hlo & Hhi).
    + apply Z.div_le_lower_bound; lia.
    + apply Z.div_lt_upper_bound; lia.
    + exists (Z.succ k). split; [done|]. split; [lia|].
      rewrite <- Z.add_1_r, !pow10_succ by lia. rewrite pow10_succ in Hhi by lia.
      Z.div_mod_to_equations. lia.
Qed.

(** The binary size of [n] is enough fuel. *)
Lemma log10_fuel (n : Z) : 1 <= n -> n < 10 ^ Z.of_nat (Z.to_nat (Z.log2 n + 1)).
Proof.
  intros Hn. pose proof (Z.log2_nonneg n). rewrite Z2Nat.id by lia.
  destruct (Z.log2_spec n) as [_ Hs]; [lia|]. rewrite <- Z.add_1_r in Hs.
  eapply Z.lt_le_trans; [exact Hs|]. apply Z.pow_le_mono_l; lia.
Qed.

Lemma zlog10_spec (n : Z) : 1 <= n -> 0 <= zlog10 n /\ 10 ^ zlog10 n <= n < 10 ^ (zlog10 n + 1).
Proof.
  intros Hn. unfold zlog10.
  destruct (log10_loop_spec _ n Hn (log10_fuel n Hn)) as (k & -> & Hk). exact Hk.
Qed.

(** [10^k <= num / den < 10^(k+1)], written without division. *)
Lemma dexp_spec (num den : Z) :
  0 < num -> 0 < den ->
  den * 10 ^ Z.max (dexp num den) 0 <= num * 10 ^ Z.max (- dexp num den) 0 <
    10 * den * 10 ^ Z.max (dexp num den) 0.
Proof.
  intros Hn Hd. unfold dexp. set (j := zlog10 den + 1).
  destruct (zlog10_spec den) as (Hj0 & Hjlo & Hjhi); [lia|]. fold j in Hjhi.
  assert (Hpj : 0 < 10 ^ j) by (apply pow10_pos; lia).
  assert (Hw : 1 <= num * 10 ^ j / den) by (apply Z.div_le_lower_bound; nia).
  set (w := num * 10 ^ j / den) in *.
  assert (Hwd : den * w <= num * 10 ^ j < den * (w + 1)) by (subst w; Z.div_mod_to_equations; nia).
  destruct (zlog10_spec w Hw) as (HL0 & HLlo & HLhi). set (L := zlog10 w) in *.
  pose proof (pow10_succ L HL0) as E.
  destruct (Z.le_ge_cases 0 (L - j)) as [Hk|Hk].
  - rewrite Z.max_l, (Z.max_r (- _)), Z.pow_0_r, Z.mul_1_r by lia.
    assert (EL : 10 ^ L = 10 ^ (L - j) * 10 ^ j) by (rewrite <- Z.pow_add_r by lia; f_equal; lia).
    rewrite EL in HLlo, E. set (P := 10 ^ (L - j)) in *. set (Q := 10 ^ j) in *.
    assert (den * P * Q <= num * Q) by nia. assert (num * Q < 10 * den * P * Q) by nia.
    split; [apply (Z.mul_le_mono_pos_r _ _ Q) | apply (Z.mul_lt_mono_pos_r Q)]; lia.
  - rewrite Z.max_r, (Z.max_l (- _)), Z.pow_0_r, !Z.mul_1_r by lia.
    assert (Ej : 10 ^ j = 10 ^ L * 10 ^ (- (L - j))) by (rewrite <- Z.pow_add_r by lia; f_equal; lia).
    rewrite Ej in Hwd. set (P := 10 ^ L) in *. set (Q := 10 ^ (- (L - j))) in *.
    assert (0 < P) by (apply pow10_pos; lia).
    assert (den * P <= num * Q * P) by nia. assert (num * Q * P < 10 * den * P) by nia.
    split; [apply (Z.mul_le_mono_pos_r _ _ P) | apply (Z.mul_lt_mono_pos_r P)]; lia.
Qed.

(** ** Rounding *)

(** Round half to even is within half a unit of [num / den]. *)
Lemma round_half_even_spec (num den : Z) :
  0 < den -> Z.abs (2 * round_half_even num den * den - 2 * num) <= den.
Proof.
  intros Hd. unfold round_half_even.
  pose proof (Z.div_mod num den ltac:(lia)). pose proof (Z.mod_pos_bound num den Hd).
  set (q := num / den) in *. set (r := num mod den) in *.
  destruct (Z.ltb_spec (2 * r) den); [|destruct (Z.ltb_spec den (2 * r)); [|destruct (Z.even q)]]; lia.
Qed.

(** A value within half a unit of [x / d], for [lo <= x / d < hi], lies in
    [[lo, hi]]. *)
Lemma round_range (n x d lo hi : Z) :
  0 < d -> Z.abs (2 * n * d - 2 * x) <= d -> lo * d <= x < hi * d -> lo <= n <= hi.
Proof. intros Hd Hn Hx. split; nia. Qed.

(** [10^a / 10^d] scaled to integers on both sides. *)
Lemma pow10_max_shift (a d : Z) :
  0 <= d -> 10 ^ Z.max a 0 * 10 ^ Z.max (d - a) 0 = 10 ^ d * 10 ^ Z.max (- a) 0 * 10 ^ Z.max (a - d) 0.
Proof.
  intros Hd. destruct (Z.le_ge_cases d a); [|destruct (Z.le_ge_cases 0 a)].
  - rewrite (Z.max_l a), (Z.max_r (d - a)), (Z.max_r (- a)), (Z.max_l (a - d)) by lia.
    rewrite <- !Z.pow_add_r by lia. f_equal. lia.
  - rewrite (Z.max_l a), (Z.max_l (d - a)), (Z.max_r (- a)), (Z.max_r (a - d)) by lia.
    rewrite <- !Z.pow_add_r by lia. f_equal. lia.
  - rewrite (Z.max_r a), (Z.max_l (d - a)), (Z.max_l (- a)), (Z.max_r (a - d)) by lia.
    rewrite <- !Z.pow_add_r by lia. f_equal. lia.
Qed.

(** [round_sig] gives six significant digits, within half a unit in the
    last place of [num / den]. *)
Lemma round_sig_spec (num den : Z) :
  0 < num -> 0 < den ->
  let '(n, X) := round_sig num den in
  10 ^ 5 <= n < 10 ^ 6 /\
  Z.abs (2 * n * 10 ^ Z.max (X - 5) 0 * den - 2 * num * 10 ^ Z.max (5 - X) 0) <= 10 ^ Z.max (X - 5) 0 * den.
Proof.
  intros Hn Hd. unfold round_sig, precision. pose proof (dexp_spec num den Hn Hd) as Hk.
  set (k := dexp num den) in *.
  replace (- (k - (6 - 1))) with (5 - k) by lia. replace (k - (6 - 1)) with (k - 5) by lia.
  pose proof (pow10_max_shift k 5 ltac:(lia)) as E5.
  assert (0 < 10 ^ Z.max k 0) by (apply pow10_pos; lia).
  assert (0 < 10 ^ Z.max (- k) 0) by (apply pow10_pos; lia).
  assert (0 < 10 ^ Z.max (k - 5) 0) by (apply pow10_pos; lia).
  assert (0 < 10 ^ Z.max (5 - k) 0) by (apply pow10_pos; lia).
  set (A := 10 ^ Z.max k 0) in *. set (B := 10 ^ Z.max (- k) 0) in *.
  set (C := 10 ^ Z.max (k - 5) 0) in *. set (D := 10 ^ Z.max (5 - k) 0) in *.
  pose proof (round_half_even_spec (num * D) (den * C) ltac:(nia)) as Hr.
  set (n0 := round_half_even (num * D) (den * C)) in *.
  assert (Hlo : 10 ^ 5 * (den * C) * B <= num * D * B) by (change (10 ^ 5) with 100000 in *; nia).
  assert (Hhi : num * D * B < 10 ^ 6 * (den * C) * B) by (change (10 ^ 5) with 100000 in *; nia).
  assert (Hx : 10 ^ 5 * (den * C) <= num * D < 10 ^ 6 * (den * C)).
  { split; [apply (Z.mul_le_mono_pos_r _ _ B) | apply (Z.mul_lt_mono_pos_r B)]; lia. }
  pose proof (round_range n0 (num * D) (den * C) (10 ^ 5) (10 ^ 6) ltac:(nia) ltac:(lia) Hx) as Hrange.
  destruct (Z.eqb_spec n0 (10 ^ 6)) as [Hc|Hc].
  - (* the rounding carried into the next decade *)
    replace (k + 1 - 5) with (k - 4) by lia. replace (5 - (k + 1)) with (4 - k) by lia.
    pose proof (pow10_max_shift (k - 4) 1 ltac:(lia)) as E1.
    replace (1 - (k - 4)) with (5 - k) in E1 by lia. replace (- (k - 4)) with (4 - k) in E1 by lia.
    replace (k - 4 - 1) with (k - 5) in E1 by lia. fold C D in E1.
    assert (0 < 10 ^ Z.max (k - 4) 0) by (apply pow10_pos; lia).
    assert (0 < 10 ^ Z.max (4 - k) 0) by (apply pow10_pos; lia).
    set (C' := 10 ^ Z.max (k - 4) 0) in *. set (D' := 10 ^ Z.max (4 - k) 0) in *.
    split; [change (10 ^ (6 - 1)) with 100000; change (10 ^ 5) with 100000; change (10 ^ 6) with 1000000; lia|].
    change (10 ^ (6 - 1)) with 100000. rewrite Hc in Hr. change (10 ^ 6) with 1000000 in Hr.
    apply (Z.mul_le_mono_pos_r _ _ D); [lia|]. rewrite <- (Z.abs_eq D) at 1 by lia. rewrite <- Z.abs_mul.
    replace ((2 * 100000 * C' * den - 2 * num * D') * D) with ((2 * 1000000 * (den * C) - 2 * (num * D)) * D') by nia.
    rewrite Z.abs_mul, (Z.abs_eq D') by lia. nia.
  - split; [lia|]. nia.
Qed.



(** ** Digits *)

Lemma sapp_assoc (a b c : string) : ((a ++ b) ++ c)%string = (a ++ (b ++ c))%string.
Proof. induction a as [|x a IH]; simpl; [done|]. by rewrite IH. Qed.

Lemma sapp_nil_r (a : string) : (a ++ "")%string = a.
Proof. induction a as [|x a IH]; simpl; [done|]. by rewrite IH. Qed.

Definition digit_ok (d : Z) : Prop := 0 <= d <= 9.

Lemma digit_of_char d : digit_ok d -> digit_of (digit_char d) = Some d.
Proof.
  intros Hd. unfold digit_ok in Hd. unfold digit_of, digit_char.
  rewrite nat_ascii_embedding by lia. rewrite Nat2Z.inj_add, Z2Nat.id by lia.
  replace (Z.of_nat 48 + d - 48) with d by lia.
  destruct (Z.leb_spec 0 d), (Z.leb_spec d 9); simpl; try lia; done.
Qed.

(** A character that does not start a digit run. *)
Definition no_digit_start (s : string) : Prop :=
  match s with String c _ => digit_of c = None | EmptyString => True end.

Lemma span_digits_app ds rest :
  Forall digit_ok ds -> no_digit_start rest -> span_digits (string_of_digits ds ++ rest) = (ds, rest).
Proof.
  intros Hds Hr. induction Hds as [|d ds Hd Hds IH]; cbn [string_of_digits fold_right String.append].
  - destruct rest as [|c rest]; cbn [span_digits no_digit_start] in *; [done|]. by rewrite Hr.
  - cbn [span_digits]. rewrite digit_of_char by done. unfold string_of_digits in IH. by rewrite IH.
Qed.

Lemma digit_char_not (d : Z) (c : ascii) :
  digit_ok d -> digit_of c = None -> Ascii.eqb (digit_char d) c = false.
Proof.
  intros Hd Hc. apply Ascii.eqb_neq. intros <-. by rewrite digit_of_char in Hc.
Qed.

Lemma value_fold (l : list Z) (acc : Z) :
  fold_left (fun acc d => 10 * acc + d) l acc = acc * 10 ^ Z.of_nat (length l) + value_of_digits l.
Proof.
  unfold value_of_digits. revert acc. induction l as [|d l IH]; intros acc; simpl; [lia|].
  rewrite (IH (10 * acc + d)), (IH (10 * 0 + d)). rewrite Nat2Z.inj_succ, Z.pow_succ_r by lia. lia.
Qed.

Lemma value_app (a b : list Z) :
  value_of_digits (a ++ b) = value_of_digits a * 10 ^ Z.of_nat (length b) + value_of_digits b.
Proof. unfold value_of_digits at 1. rewrite fold_left_app, value_fold. done. Qed.

Lemma value_zeros k : value_of_digits (repeat 0 k) = 0.
Proof. induction k as [|k IH]; [done|]. change (repeat 0 (S k)) with ([0] ++ repeat 0 k). by rewrite value_app, IH. Qed.

Lemma mod_mul10 (n P : Z) : 0 < P -> n mod (10 * P) = 10 * ((n / 10) mod P) + n mod 10.
Proof.
  intros HP. symmetry. apply Z.mod_unique with (q := n / 10 / P).
  - left. pose proof (Z.mod_pos_bound (n / 10) P HP). pose proof (Z.mod_pos_bound n 10 ltac:(lia)). lia.
  - pose proof (Z.div_mod (n / 10) P ltac:(lia)). pose proof (Z.div_mod n 10 ltac:(lia)). lia.
Qed.

Lemma digits_spec (w : nat) (n : Z) :
  0 <= n -> Forall digit_ok (digits w n) /\ length (digits w n) = w /\
  value_of_digits (digits w n) = n mod 10 ^ Z.of_nat w.
Proof.
  revert n. induction w as [|w IH]; intros n Hn; simpl.
  - split_and!; [constructor | done | by rewrite Z.mod_1_r].
  - destruct (IH (n / 10)) as (Hf & Hl & Hv); [apply Z.div_pos; lia|].
    pose proof (Z.mod_pos_bound n 10 ltac:(lia)).
    split_and!.
    + apply Forall_app. split; [done|]. constructor; [unfold digit_ok; lia | constructor].
    + rewrite length_app, Hl. simpl. lia.
    + rewrite value_app, Hv. cbn [length value_of_digits fold_left].
      replace (10 ^ Z.of_nat (S w)) with (10 * 10 ^ Z.of_nat w) by (rewrite Nat2Z.inj_succ, Z.pow_succ_r; lia).
      rewrite mod_mul10 by (apply Z.pow_pos_nonneg; lia). simpl. lia.
Qed.

Lemma drop_zeros_spec (l : list Z) : exists k, l = repeat 0 k ++ drop_zeros l.
Proof.
  induction l as [|d l IH]; [by exists 0%nat|].
  destruct (Z.eq_dec d 0) as [->|Hd].
  - destruct IH as [k Hk]. exists (S k). simpl. by rewrite <- Hk.
  - exists 0%nat. simpl. destruct d; [lia | done | done].
Qed.

(** The fraction is its stripped form followed by zeros. *)
Lemma strip_spec (ds : list Z) : exists k, ds = strip_trailing_zeros ds ++ repeat 0 k.
Proof.
  destruct (drop_zeros_spec (rev ds)) as [k Hk]. exists k.
  unfold strip_trailing_zeros. rewrite <- (rev_involutive ds) at 1. rewrite Hk at 1.
  rewrite rev_app_distr, rev_repeat. done.
Qed.

(** ** The layout read back *)

(** What may follow the digits: nothing, or an exponent. *)
Definition tail_ok (tail : string) (x : Z) : Prop :=
  (tail = EmptyString /\ x = 0) \/ (tail = exponent x /\ Z.abs x < 1000).

Lemma exponent_shape x :
  Z.abs x < 1000 ->
  exists eds, exponent x = String "e" (String (if Z.ltb x 0 then "-" else "+") (string_of_digits eds)) /\
    Forall digit_ok eds /\ value_of_digits eds = Z.abs x.
Proof.
  intros Hx. set (w := if Z.ltb (Z.abs x) 100 then 2%nat else 3%nat).
  exists (digits w (Z.abs x)). destruct (digits_spec w (Z.abs x)) as (Hf & _ & Hv); [lia|].
  split_and!; [unfold exponent; fold w; by destruct (Z.ltb x 0) | done |].
  rewrite Hv. apply Z.mod_small. subst w. destruct (Z.ltb_spec (Z.abs x) 100); simpl; lia.
Qed.

Lemma tail_no_digit tail x : tail_ok tail x -> no_digit_start tail.
Proof. intros [[-> _]|[-> Hx]]; [done|]. destruct (exponent_shape x Hx) as (eds & -> & _). reflexivity. Qed.

Lemma parse_fraction_tail tail x : tail_ok tail x -> parse_fraction tail = ([], tail).
Proof. intros [[-> _]|[-> Hx]]; [done|]. destruct (exponent_shape x Hx) as (eds & -> & _). reflexivity. Qed.

Lemma parse_exp_tail tail x : tail_ok tail x -> parse_exp tail = Some x.
Proof.
  intros [[-> ->]|[-> Hx]]; [done|]. destruct (exponent_shape x Hx) as (eds & -> & Hf & Hv).
  cbn [parse_exp]. rewrite Ascii.eqb_refl. rewrite <- (sapp_nil_r (string_of_digits eds)).
  rewrite span_digits_app by done. rewrite Hv.
  destruct (Z.ltb_spec x 0); cbn; f_equal; lia.
Qed.

(** The digits before and after the point read back, with the trailing
    zeros of the fraction dropped. *)
Lemma parse_unsigned_layout (int frac : list Z) (tail : string) (x : Z) :
  int <> [] -> Forall digit_ok int -> Forall digit_ok frac -> tail_ok tail x ->
  parse_unsigned (with_fraction (string_of_digits int) frac ++ tail) =
    Some (value_of_digits (int ++ strip_trailing_zeros frac), x - Z.of_nat (length (strip_trailing_zeros frac))).
Proof.
  intros Hi Hdi Hdf Ht. destruct (strip_spec frac) as [k Hk].
  assert (Hf : Forall digit_ok (strip_trailing_zeros frac)) by (rewrite Hk in Hdf; by apply Forall_app in Hdf as [? _]).
  unfold with_fraction. unfold parse_unsigned.
  destruct (strip_trailing_zeros frac) as [|d f] eqn:Ef.
  - rewrite span_digits_app by (done || by eapply tail_no_digit).
    rewrite (parse_fraction_tail _ _ Ht), (parse_exp_tail _ _ Ht). destruct int; [done|].
    by rewrite app_nil_r.
  - rewrite sapp_assoc. cbn [String.append]. rewrite span_digits_app by done.
    cbn [parse_fraction]. rewrite Ascii.eqb_refl. rewrite span_digits_app by (done || by eapply tail_no_digit).
    rewrite (parse_exp_tail _ _ Ht). by destruct int.
Qed.

Lemma parse_g_sign (sg : bool) (t : string) (d : Z) (t' : string) :
  digit_ok d -> t = String (digit_char d) t' ->
  parse_g (sign_str sg ++ t) = (fun '(M, E) => (sg, M, E)) <$> parse_unsigned t.
Proof.
  intros Hd ->. destruct sg; cbn [sign_str String.append parse_g].
  - by rewrite Ascii.eqb_refl.
  - by rewrite digit_char_not.
Qed.

Lemma Forall_zeros k : Forall digit_ok (repeat 0 k).
Proof. induction k; constructor; [unfold digit_ok; lia | done]. Qed.

(** [M * 10^E = n * 10^F], written without negative powers. *)
Definition dec_eq (M E n F : Z) : Prop :=
  M * 10 ^ Z.max E 0 * 10 ^ Z.max (- F) 0 = n * 10 ^ Z.max F 0 * 10 ^ Z.max (- E) 0.

Lemma dec_eq_shift (M E n F k : Z) : 0 <= k -> E = F + k -> n = M * 10 ^ k -> dec_eq M E n F.
Proof.
  intros Hk -> ->. unfold dec_eq. pose proof (pow10_max_shift (F + k) k Hk) as E1.
  replace (k - (F + k)) with (- F) in E1 by lia. replace (F + k - k) with F in E1 by lia.
  rewrite <- Z.mul_assoc, E1. ring.
Qed.

(** Digits [int ++ frac] of value [n], printed with the point after
    [int] and the exponent [X0], read back as [n * 10^(X0 - |frac|)]. *)
Lemma layout_value (int frac : list Z) (n X0 F : Z) :
  value_of_digits (int ++ frac) = n -> F = X0 - Z.of_nat (length frac) ->
  dec_eq (value_of_digits (int ++ strip_trailing_zeros frac))
         (X0 - Z.of_nat (length (strip_trailing_zeros frac))) n F.
Proof.
  intros Hv HF. destruct (strip_spec frac) as [k Hk].
  set (f := strip_trailing_zeros frac) in *. clearbody f. subst frac.
  apply (dec_eq_shift _ _ _ _ (Z.of_nat k)); [lia | |].
  - rewrite HF, length_app, repeat_length. lia.
  - rewrite <- Hv, app_assoc, value_app, value_zeros, repeat_length. lia.
Qed.

Lemma with_fraction_head (i : Z) (int frac : list Z) :
  exists t', with_fraction (string_of_digits (i :: int)) frac = String (digit_char i) t'.
Proof. unfold with_fraction. destruct (strip_trailing_zeros frac); eexists; reflexivity. Qed.

(** [%g] text of six significant digits [n] and exponent [X] reads back
    as [n * 10^(X - 5)], with its sign. *)
Lemma parse_format_sig (sg : bool) (n X : Z) :
  10 ^ 5 <= n < 10 ^ 6 -> Z.abs X < 1000 ->
  exists M E, parse_g (sign_str sg ++ format_sig n X) = Some (sg, M, E) /\ dec_eq M E n (X - 5).
Proof.
  intros Hn HX. unfold format_sig, fixed, scientific, precision. change (Z.to_nat 6) with 6%nat.
  destruct (digits_spec 6 n) as (Hd & Hl & Hv); [lia|].
  rewrite Z.mod_small in Hv by (simpl; lia).
  destruct (digits 6 n) as [|d0 ds'] eqn:Eds; [by simpl in Hl|]. apply Forall_cons in Hd as [Hd0 Hds'].
  destruct (Z.leb (-4) X && Z.ltb X 6) eqn:Hfix; [destruct (Z.leb_spec 0 X)|].
  - (* fixed notation, [X >= 0] *)
    destruct (Z.to_nat (X + 1)) as [|j] eqn:Ej; [lia|]. cbn [firstn skipn].
    rewrite <- (sapp_nil_r (with_fraction _ _)).
    destruct (with_fraction_head d0 (firstn j ds') (skipn j ds')) as [t' Ht'].
    rewrite (parse_g_sign sg _ d0 (t' ++ "")) by (done || by rewrite Ht').
    rewrite (parse_unsigned_layout _ _ _ 0) by (first [done | by apply Forall_cons; split; [|apply Forall_take]
                                             | by apply Forall_drop | by left]).
    eexists _, _. split; [reflexivity|]. apply layout_value.
    + by rewrite <- app_comm_cons, take_drop.
    + rewrite length_drop. simpl in Hl. lia.
  - (* fixed notation, [-4 <= X < 0]: [0.] and zeros before the digits *)
    rewrite <- (sapp_nil_r (with_fraction _ _)). change "0"%string with (string_of_digits [0]).
    destruct (with_fraction_head 0 [] (repeat 0 (Z.to_nat (- X - 1)) ++ d0 :: ds')) as [t' Ht'].
    rewrite (parse_g_sign sg _ 0 (t' ++ "")) by (unfold digit_ok; lia || by rewrite Ht').
    rewrite (parse_unsigned_layout [0] _ _ 0); [| done | by repeat constructor | | by left].
    2: { apply Forall_app. split; [apply Forall_zeros | by constructor]. }
    eexists _, _. split; [reflexivity|]. apply layout_value.
    + rewrite value_app, value_app, value_zeros, Hv. change (value_of_digits [0]) with 0. lia.
    + rewrite length_app, repeat_length. simpl length. simpl in Hl. lia.
  - (* scientific notation *)
    cbn [firstn skipn]. rewrite take_0, drop_0.
    destruct (with_fraction_head d0 [] ds') as [t' Ht'].
    rewrite (parse_g_sign sg _ d0 (t' ++ exponent X)) by (done || by rewrite Ht').
    rewrite (parse_unsigned_layout _ _ _ X) by (first [done | by repeat constructor | by right]).
    eexists _, _. split; [reflexivity|]. apply layout_value.
    + done.
    + simpl in Hl. lia.
Qed.

(** For a [double], the decimal exponent has at most three digits. *)
Lemma round_sig_exp_bound (num den : Z) :
  0 < num < 2 ^ 1024 -> 0 < den <= 2 ^ 1074 -> Z.abs (snd (round_sig num den)) < 1000.
Proof.
  intros Hn Hd. pose proof (dexp_spec num den ltac:(lia) ltac:(lia)) as Hk.
  assert (B1 : 2 ^ 1024 < 10 ^ 999) by (apply Z.ltb_lt; vm_compute; reflexivity).
  assert (B2 : 10 * 2 ^ 1074 < 10 ^ 999) by (apply Z.ltb_lt; vm_compute; reflexivity).
  set (k := dexp num den) in *.
  assert (-998 <= k <= 998).
  { split; apply Z.nlt_ge; intros Hc.
    - rewrite Z.max_r, (Z.max_l (- k)), Z.pow_0_r in Hk by lia.
      assert (10 ^ 999 <= 10 ^ (- k)) by (apply Z.pow_le_mono_r; lia). nia.
    - rewrite Z.max_l, (Z.max_r (- k)), Z.pow_0_r in Hk by lia.
      assert (10 ^ 999 <= 10 ^ k) by (apply Z.pow_le_mono_r; lia). nia. }
  unfold round_sig. fold k. destruct (Z.eqb _ _); simpl; lia.
Qed.

(** ** Properties *)

(** C15: printing and reading back.  For every finite nonzero [double]
    [x = ±m * 2^e] (a 53-bit [m], an exponent of binary64), the text of
    [output << x] parses, by [parse_g], to its sign and a decimal [M * 10^E].
    That decimal equals [n * 10^(X-5)] for six significant digits [n].  It
    is within half a unit in the last printed place of [m * 2^e], so the
    text is the correctly rounded value.  The parse goes through the whole
    layout (point, fraction, exponent, stripped zeros). *)
Theorem show_double_roundtrip (s : bool) (m : positive) (e : Z) :
  Zpos m < 2 ^ 53 -> -1074 <= e <= 971 ->
  exists M E n X,
    parse_g (show_double (S754_finite s m e)) = Some (s, M, E) /\
    dec_eq M E n (X - 5) /\ 10 ^ 5 <= n < 10 ^ 6 /\
    Z.abs (2 * n * 10 ^ Z.max (X - 5) 0 * 2 ^ Z.max (- e) 0 - 2 * (Zpos m * 2 ^ Z.max e 0) * 10 ^ Z.max (5 - X) 0)
      <= 10 ^ Z.max (X - 5) 0 * 2 ^ Z.max (- e) 0.
Proof.
  intros Hm He.
  assert (Hnum : 0 < Zpos m * 2 ^ Z.max e 0 < 2 ^ 1024).
  { assert (2 ^ Z.max e 0 <= 2 ^ 971) by (apply Z.pow_le_mono_r; lia).
    assert (0 < 2 ^ Z.max e 0) by (apply Z.pow_pos_nonneg; lia).
    change (2 ^ 1024) with (2 ^ 53 * 2 ^ 971). nia. }
  assert (Hden : 0 < 2 ^ Z.max (- e) 0 <= 2 ^ 1074).
  { split; [apply Z.pow_pos_nonneg; lia | apply Z.pow_le_mono_r; lia]. }
  pose proof (round_sig_spec _ _ (proj1 Hnum) (proj1 Hden)) as Hr.
  pose proof (round_sig_exp_bound _ _ Hnum Hden) as HX.
  unfold show_double, abs_ratio. destruct (round_sig _ _) as [n X]. simpl in HX.
  destruct Hr as [Hn Hb].
  destruct (parse_format_sig s n X Hn HX) as (M & E & Hp & Hq).
  exists M, E, n, X. split_and!; [exact Hp | exact Hq | lia | lia | exact Hb].
Qed.

(** ** Instances at concrete points *)

Lemma show_double_roundtrip_witness :
  Zpos 5404319552844596 < 2 ^ 53 /\ -1074 <= -53 <= 971 /\
  exists M E n X,
    parse_g (show_double (S754_finite false 5404319552844596 (-53))) = Some (false, M, E) /\
    dec_eq M E n (X - 5) /\ 10 ^ 5 <= n < 10 ^ 6 /\
    Z.abs (2 * n * 10 ^ Z.max (X - 5) 0 * 2 ^ Z.max (- -53) 0 -
           2 * (Zpos 5404319552844596 * 2 ^ Z.max (-53) 0) * 10 ^ Z.max (5 - X) 0)
      <= 10 ^ Z.max (X - 5) 0 * 2 ^ Z.max (- -53) 0.
Proof.
  split_and!; [lia | lia | lia |].
  apply (show_double_roundtrip false 5404319552844596 (-53)); lia.
Defined.
