(* ===== verification/Scalar.v ===== *)
(** * What [mvector<T>] needs of its scalar type [T]

    The template [mvector<T>] of [src/vector_test.cpp] uses only a few
    things of [T].  The typeclass [Scalar T] lists them, so every operation
    of [MVector] is defined and proved once for all [T]:

    - [T()] and the literal [0] ([s_zero]);
    - the literal [1] of [operator/] ([s_one]);
    - [+], [-], [*], unary [-] and [/] on [T].  Each may have undefined
      behaviour (signed overflow and division by zero for [int]);
    - the conversions [T] to [double] ([length_sq] returns [double];
      [std::fabs] and the [double] operand of [*=]/[/=] promote) and
      [double] to [T] (the assignment back in [*=]/[/=]).

    The typeclass [ExactScalar] says that the arithmetic of [T] never has
    undefined behaviour.  [double] is such a type, and its instance is
    here; the instance for [int] is in [CInt]. *)

From S2P Require Import Prelude Double.

Class Scalar (T : Type) := {
  s_zero : T;
  s_one : T;
  s_add : T -> T -> outcome T;
  s_sub : T -> T -> outcome T;
  s_mul : T -> T -> outcome T;
  s_neg : T -> outcome T;
  s_div : T -> T -> outcome T;
  s_to_double : T -> double;
  s_of_double : double -> outcome T;
}.

(** Arithmetic that is total: every result is [Ok]. *)
Class ExactScalar (T : Type) `{Scalar T} : Prop := {
  exact_add x y : is_ok (s_add x y) = true;
  exact_sub x y : is_ok (s_sub x y) = true;
  exact_mul x y : is_ok (s_mul x y) = true;
  exact_neg x : is_ok (s_neg x) = true;
}.

(** [T = double]: IEEE arithmetic, where nothing is undefined (division by
    zero gives an infinity or NaN), and the conversions are the identity. *)
#[export] Instance Scalar_double : Scalar double := {
  s_zero := dzero;
  s_one := d_of_Z 1;
  s_add x y := Ok (dadd x y);
  s_sub x y := Ok (dsub x y);
  s_mul x y := Ok (dmul x y);
  s_neg x := Ok (dopp x);
  s_div x y := Ok (ddiv x y);
  s_to_double x := x;
  s_of_double d := Ok d;
}.

#[export] Instance ExactScalar_double : ExactScalar double.
Proof. by split. Qed.

Lemma exact_ok {T} `{Scalar T} (m : outcome T) : is_ok m = true -> exists x, m = Ok x.
Proof. destruct m; [eauto | done]. Qed.
