(* ===== verification/CInt.v ===== *)
(** * C++ [int] (32-bit two's complement)

    An [int] is an integer in [[INT_MIN, INT_MAX]].  Arithmetic is exact
    when the exact result fits.  Otherwise it is signed overflow, which is
    undefined behaviour in C++, so it gives [UB UB_overflow] rather than a
    wrapped value.  Division truncates toward zero ([Z.quot]), and division
    by zero is undefined.  The conversion from [double] truncates toward
    zero and is undefined when the result does not fit ([conv.fpint]).

    This file gives the instance [Scalar int], used by [color = mvector<int>],
    and the lemmas that link the checked operations to exact [Z]
    arithmetic, which the refinement theorems of [MVectorInt] use. *)

From Stdlib Require Import ZArith Lia.
From S2P Require Import Prelude Double Scalar.

Local Open Scope Z_scope.

(** [int] values are integers; [in_range] says which ones an [int] holds. *)
Abbreviation int := Z (only parsing).

Definition INT_MIN : Z := - 2 ^ 31.
Definition INT_MAX : Z := 2 ^ 31 - 1.

(** The values an [int] can hold. *)
Definition in_range (z : Z) : bool := (INT_MIN <=? z) && (z <=? INT_MAX).

(** An exact result, checked for signed overflow. *)
Definition checked (z : Z) : outcome int :=
  if in_range z then Ok z else UB UB_overflow.

Definition iadd (x y : int) : outcome int := checked (x + y).
Definition isub (x y : int) : outcome int := checked (x - y).
Definition imul (x y : int) : outcome int := checked (x * y).
Definition ineg (x : int) : outcome int := checked (- x).
Definition idiv (x y : int) : outcome int :=
  if Z.eqb y 0 then UB UB_div_by_zero else checked (Z.quot x y).

(** [double] to [int]: truncation toward zero, undefined when the value is
    infinite, NaN, or out of range. *)
Definition i_of_double (d : double) : outcome int :=
  match dtrunc d with
  | Some z => if in_range z then Ok z else UB UB_float_to_int
  | None => UB UB_float_to_int
  end.

#[export] Instance Scalar_int : Scalar int := {
  s_zero := 0;
  s_one := 1;
  s_add := iadd;
  s_sub := isub;
  s_mul := imul;
  s_neg := ineg;
  s_div := idiv;
  s_to_double := d_of_Z;
  s_of_double := i_of_double;
}.

(** ** Checked arithmetic and exact arithmetic *)

Lemma checked_spec z r : checked z = Ok r <-> r = z /\ in_range z = true.
Proof.
  unfold checked. destruct (in_range z); split; intros H; try done.
  - by injection H as <-.
  - by destruct H as [-> _].
  - by destruct H.
Qed.

Lemma checked_ub z u : checked z = UB u <-> u = UB_overflow /\ in_range z = false.
Proof.
  unfold checked. destruct (in_range z); split; intros H; try done.
  - by destruct H.
  - by injection H as <-.
  - by destruct H as [-> _].
Qed.

Lemma in_range_iff z : in_range z = true <-> INT_MIN <= z <= INT_MAX.
Proof. unfold in_range. rewrite andb_true_iff, Z.leb_le, Z.leb_le. done. Qed.

(** [1 / t] in [int] arithmetic: 1 for [t = 1], -1 for [t = -1], and 0
    for every other non-zero [t]. *)
Lemma idiv_one t :
  t <> 0 -> idiv 1 t = Ok (if Z.eqb t 1 then 1 else if Z.eqb t (-1) then -1 else 0).
Proof.
  intros Ht. unfold idiv. rewrite (proj2 (Z.eqb_neq t 0) Ht).
  destruct (Z.eqb_spec t 1) as [->|H1]; [done|].
  destruct (Z.eqb_spec t (-1)) as [->|H2]; [done|].
  assert (Z.quot 1 t = 0) as -> by (apply Z.quot_small_iff; lia).
  done.
Qed.
