(* ===== verification/MVector.v ===== *)
(** * [template <typename T> class mvector] and its free functions

    Each definition translates one operation of [src/vector_test.cpp] for
    any [Scalar T].  A vector is a [list T].  A loop
    [for (T& elem : v) { auto i = &elem - &v[0]; ... }] is [loop_from]
    over the indices of [v].  [mvector<T> return_value(n)] is [mk n], [n]
    value-initialised elements.  Every [v[i]] goes through the checked
    [vget]/[vset], so reading past the end of a shorter operand is
    [UB (UB_out_of_range i)].

    A member operator that changes [*this] ([+=], [-=], [*=], [/=]) maps
    the receiver to its new contents.  The value it returns is a copy of
    those contents ([mvector operator+=(...)] returns by value). *)

From Stdlib Require Import ZArith Lia.
From S2P Require Import Prelude Double Scalar.

Section MVector.
Context {T : Type} `{Scalar T}.

(** [mvector<T> return_value(n)]: [n] copies of [T()]. *)
Definition mk (n : nat) : list T := replicate n s_zero.

(** ** Member operators (lines 13-87) *)

(** [mvector operator-()]: [return_value[i] = -( *this)[i]]. *)
Definition neg (this : list T) : outcome (list T) :=
  let rv := mk (length this) in
  loop_from (set_body (fun i => x ← vget this i; s_neg x)) 0 (length rv) rv.

(** [operator+=(const mvector &a)]: [( *this)[i] += a[i]] for every index of
    [*this]. *)
Definition plus_assign (this a : list T) : outcome (list T) :=
  loop_from (upd_body (fun i r => y ← vget a i; s_add r y)) 0 (length this) this.

(** [operator-=(const mvector &a)]: [( *this)[i] -= a[i]]. *)
Definition minus_assign (this a : list T) : outcome (list T) :=
  loop_from (upd_body (fun i r => y ← vget a i; s_sub r y)) 0 (length this) this.

(** [operator*=(const double t)]: [( *this)[i] *= t], computed in [double]
    and converted back to [T]. *)
Definition times_assign (this : list T) (t : double) : outcome (list T) :=
  loop_from (upd_body (fun _ r => s_of_double (dmul (s_to_double r) t)))
    0 (length this) this.

(** [operator/=(const double t)]: [( *this)[i] /= t], in [double]. *)
Definition div_assign (this : list T) (t : double) : outcome (list T) :=
  loop_from (upd_body (fun _ r => s_of_double (ddiv (s_to_double r) t)))
    0 (length this) this.

(** ** Free functions (lines 90-164) *)

(** [operator+(a, b)]: [return_value[i] += a[i] + b[i]] over the indices
    of [a]. *)
Definition add (a b : list T) : outcome (list T) :=
  let rv := mk (length a) in
  loop_from (upd_body (fun i r => x ← vget a i; y ← vget b i; s ← s_add x y; s_add r s))
    0 (length rv) rv.

(** [operator-(a, b)]: [return_value[i] += a[i] - b[i]]. *)
Definition sub (a b : list T) : outcome (list T) :=
  let rv := mk (length a) in
  loop_from (upd_body (fun i r => x ← vget a i; y ← vget b i; s ← s_sub x y; s_add r s))
    0 (length rv) rv.

(** [dot(a, b)]: [T return_value = 0; return_value += a[i] * b[i]], left
    to right over the indices of [a]. *)
Definition dot (a b : list T) : outcome T :=
  loop_from (fun i acc => x ← vget a i; y ← vget b i; p ← s_mul x y; s_add acc p)
    0 (length a) s_zero.

(** Element-wise [operator*(a, b)]: [return_value[i] = a[i] * b[i]]. *)
Definition mul (a b : list T) : outcome (list T) :=
  let rv := mk (length a) in
  loop_from (set_body (fun i => x ← vget a i; y ← vget b i; s_mul x y)) 0 (length a) rv.

(** The expression [a[i] * b[j] - a[j] * b[i]] of [cross]. *)
Definition cross_term (a b : list T) (i j : nat) : outcome T :=
  x ← vget a i; y ← vget b j; x' ← vget a j; y' ← vget b i;
  p ← s_mul x y; q ← s_mul x' y'; s_sub p q.

(** [cross(a, b)]: a result of [a.size()] zeros, then the three stores
    [return_value[0]], [[1]], [[2]] in this order. *)
Definition cross (a b : list T) : outcome (list T) :=
  let rv := mk (length a) in
  c0 ← cross_term a b 1 2; rv ← vset rv 0 c0;
  c1 ← cross_term a b 2 0; rv ← vset rv 1 c1;
  c2 ← cross_term a b 0 1; vset rv 2 c2.

(** The cross product of [(a0, a1, a2)] and [(b0, b1, b2)] by its formula
    [(a1 b2 - a2 b1, a2 b0 - a0 b2, a0 b1 - a1 b0)], each product taken
    left operand first as the code writes it. *)
Definition cross3_ref (a0 a1 a2 b0 b1 b2 : T) : outcome (list T) :=
  c0 ← (p ← s_mul a1 b2; q ← s_mul a2 b1; s_sub p q);
  c1 ← (p ← s_mul a2 b0; q ← s_mul a0 b2; s_sub p q);
  c2 ← (p ← s_mul a0 b1; q ← s_mul a1 b0; s_sub p q);
  mret [c0; c1; c2].

(** Scalar [operator*(const T t, a)]: [return_value[i] += t * a[i]]. *)
Definition scale (t : T) (a : list T) : outcome (list T) :=
  let rv := mk (length a) in
  loop_from (upd_body (fun i r => x ← vget a i; p ← s_mul t x; s_add r p)) 0 (length a) rv.

(** Scalar [operator*(a, const T t)]: [return t*a;]. *)
Definition scale_r (a : list T) (t : T) : outcome (list T) := scale t a.

(** Scalar [operator/(a, const T t)]: [return (1/t) * a;], with [1/t]
    computed in [T]. *)
Definition divide (a : list T) (t : T) : outcome (list T) :=
  r ← s_div s_one t; scale r a.

(** ** Members that read [*this] (lines 54-69) *)

(** [double length_sq()]: [return dot( *this, *this);], converted to
    [double]. *)
Definition length_sq (this : list T) : outcome double :=
  d ← dot this this; mret (s_to_double d).

(** [double length()]: [return sqrt(length_sq());].  (Named [mlength]
    here, as [length] is the length of a list.) *)
Definition mlength (this : list T) : outcome double :=
  dsqrt <$> length_sq this.

(** [bool near_zero()]: [return_value = return_value && (fabs(elem) < 1e-8)]
    for each element.  The loop reads [elem] through the iterator, so it
    cannot go out of range. *)
Definition near_zero (this : list T) : bool :=
  fold_left (fun rv elem => rv && dltb (dabs (s_to_double elem)) epsilon) this true.

End MVector.

Arguments mk T {_} n.

(** ** What each loop computes

    Each theorem equates an operation with a reference definition of
    [Prelude] ([mapM], [zipM_from], [fold2M_from]) on every input.  The
    theorems cover the UB paths and the elements that the loop never
    reads. *)

Section MVectorSpec.
Context {T : Type} `{Scalar T}.

Lemma length_mk n : length (mk T n) = n.
Proof. apply length_replicate. Qed.

(** A loop that fills [mk (length a)] reading only [a[i]] (and the zero it
    overwrites) is a [mapM] over [a]. *)
Lemma fill_from (f : T -> T -> outcome T) (a : list T) :
  mapM_from (fun i r => x ← vget a i; f r x) 0 (mk T (length a)) = mapM (f s_zero) a.
Proof.
  etrans; [exact (mapM_from_vget f [] (mk T (length a)) a)|].
  apply zipM_from_replicate.
Qed.

(** A loop that fills [mk (length a)] reading [a[i]] and [b[i]] is a
    [zipM_from] of [a] and [b]. *)
Lemma fill_from2 (f : T -> T -> T -> outcome T) (a b : list T) :
  mapM_from (fun i r => x ← vget a i; y ← vget b i; f r x y) 0 (mk T (length a)) =
    zipM_from (f s_zero) 0 a b.
Proof. exact (mapM_from_vget2 f s_zero [] [] a b eq_refl). Qed.

Ltac loop_to_map :=
  lazymatch goal with
  | |- loop_from (set_body _) _ _ _ = _ =>
      rewrite (loop_elementwise_n _ _ _ _ (set_body_elementwise _)) by (rewrite ?length_mk; done)
  | |- loop_from (upd_body _) _ _ _ = _ =>
      rewrite (loop_elementwise_n _ _ _ _ (upd_body_elementwise _)) by (rewrite ?length_mk; done)
  end.

(** *** Member operators *)

(** [-a] negates each element, left to right; only an overflowing
    negation can fail. *)
Theorem neg_spec (a : list T) : neg a = mapM s_neg a.
Proof. unfold neg. cbv zeta. loop_to_map. apply (fill_from (fun _ x => s_neg x)). Qed.

(** [this += a] adds [a[i]] to each element of [this].  It reads [a] only
    at the indices of [this]: UB if [a] is shorter, extra elements
    ignored. *)
Theorem plus_assign_spec (this a : list T) : plus_assign this a = zipM_from s_add 0 this a.
Proof. unfold plus_assign. loop_to_map. exact (mapM_from_vget s_add [] this a). Qed.

Theorem minus_assign_spec (this a : list T) : minus_assign this a = zipM_from s_sub 0 this a.
Proof. unfold minus_assign. loop_to_map. exact (mapM_from_vget s_sub [] this a). Qed.

(** [this *= t] multiplies each element in [double] by [t] and converts
    back to [T]. *)
Theorem times_assign_spec (this : list T) (t : double) :
  times_assign this t = mapM (fun r => s_of_double (dmul (s_to_double r) t)) this.
Proof. unfold times_assign. loop_to_map. apply mapM_from_const. Qed.

Theorem div_assign_spec (this : list T) (t : double) :
  div_assign this t = mapM (fun r => s_of_double (ddiv (s_to_double r) t)) this.
Proof. unfold div_assign. loop_to_map. apply mapM_from_const. Qed.

(** *** Free functions *)

(** [a + b] is, at each index of [a], [0 + (a[i] + b[i])]: the element is
    added to the zero of [mk].  UB if [b] is shorter than [a]; the tail of
    a longer [b] is ignored. *)
Theorem add_spec (a b : list T) :
  add a b = zipM_from (fun x y => s ← s_add x y; s_add s_zero s) 0 a b.
Proof. unfold add. cbv zeta. loop_to_map. exact (fill_from2 (fun r x y => s ← s_add x y; s_add r s) a b). Qed.

Theorem sub_spec (a b : list T) :
  sub a b = zipM_from (fun x y => s ← s_sub x y; s_add s_zero s) 0 a b.
Proof. unfold sub. cbv zeta. loop_to_map. exact (fill_from2 (fun r x y => s ← s_sub x y; s_add r s) a b). Qed.

(** Element-wise [a * b] is [a[i] * b[i]] at each index of [a]. *)
Theorem mul_spec (a b : list T) : mul a b = zipM_from s_mul 0 a b.
Proof. unfold mul. cbv zeta. loop_to_map. exact (fill_from2 (fun _ x y => s_mul x y) a b). Qed.

(** [dot(a, b)] accumulates [acc + a[i] * b[i]] left to right from [0],
    over the indices of [a]. *)
Theorem dot_spec (a b : list T) :
  dot a b = fold2M_from (fun acc x y => p ← s_mul x y; s_add acc p) 0 a b s_zero.
Proof. exact (loop_fold2 (fun acc x y => p ← s_mul x y; s_add acc p) [] [] a b s_zero eq_refl). Qed.

(** [t * a] is [0 + t * a[i]] at each index. *)
Theorem scale_spec (t : T) (a : list T) :
  scale t a = mapM (fun x => p ← s_mul t x; s_add s_zero p) a.
Proof. unfold scale. cbv zeta. loop_to_map. exact (fill_from (fun r x => p ← s_mul t x; s_add r p) a). Qed.

(** [a / t] is [1 / t] computed in [T], then [scale]. *)
Theorem divide_spec (a : list T) (t : T) :
  divide a t = r ← s_div s_one t; mapM (fun x => p ← s_mul r x; s_add s_zero p) a.
Proof. unfold divide. destruct (s_div s_one t); simpl; [apply scale_spec | done]. Qed.

(** [cross(a, b)] on [a] of size at least 3: the three components of the
    cross product, then [a.size() - 3] zeros, since the result has the size
    of [a].  [b] is read at indices 0, 1 and 2 only. *)
Theorem cross_spec (a b : list T) :
  3 <= length a ->
  cross a b = (c0 ← cross_term a b 1 2; c1 ← cross_term a b 2 0; c2 ← cross_term a b 0 1;
               mret (c0 :: c1 :: c2 :: mk T (length a - 3))).
Proof.
  intros Ha. unfold cross. cbv zeta.
  destruct (cross_term a b 1 2) as [c0|]; simpl; [|done].
  rewrite vset_lt by (rewrite length_mk; lia). simpl.
  destruct (cross_term a b 2 0) as [c1|]; simpl; [|done].
  rewrite vset_lt by (rewrite length_insert, length_mk; lia). simpl.
  destruct (cross_term a b 0 1) as [c2|]; simpl; [|done].
  rewrite vset_lt by (rewrite !length_insert, length_mk; lia).
  unfold mk. destruct (length a) as [|[|[|n]]]; [lia..|]. simpl.
  by rewrite Nat.sub_0_r.
Qed.

(** [cross(a, b)] on [a] of size less than 3 is undefined: [a[2]] is read
    out of range (or an earlier read or store fails). *)
Theorem cross_short (a b : list T) : length a < 3 -> exists u, cross a b = UB u.
Proof.
  intros Ha. unfold cross, cross_term. cbv zeta.
  destruct (vget a 1), (vget b 2); simpl; eauto.
  rewrite (vget_ge a 2) by lia. simpl. eauto.
Qed.

(** [near_zero()] is the conjunction over the elements of
    [fabs(double(x)) < 1e-8]; it reads every element and never fails. *)
Lemma near_zero_spec (a : list T) :
  near_zero a = forallb (fun x => dltb (dabs (s_to_double x)) epsilon) a.
Proof.
  unfold near_zero. change (forallb _ a) with (true && forallb (fun x => dltb (dabs (s_to_double x)) epsilon) a).
  generalize true as b.
  induction a as [|x a IH]; intros b; simpl; [by rewrite andb_true_r|].
  rewrite IH. by rewrite andb_assoc.
Qed.

(** C2: the member operators compute their references: [-a] and the
    compound assignments are maps over [*this] (the assignments read [a]
    at the indices of [*this]; [*=] and [/=] go through [double]), and
    [near_zero] tests every element. *)
Theorem members_refine (this a : list T) (t : double) :
  neg this = mapM s_neg this /\
  plus_assign this a = zipM_from s_add 0 this a /\
  minus_assign this a = zipM_from s_sub 0 this a /\
  times_assign this t = mapM (fun r => s_of_double (dmul (s_to_double r) t)) this /\
  div_assign this t = mapM (fun r => s_of_double (ddiv (s_to_double r) t)) this /\
  near_zero this = forallb (fun x => dltb (dabs (s_to_double x)) epsilon) this.
Proof.
  split_and!; auto using neg_spec, plus_assign_spec, minus_assign_spec,
    times_assign_spec, div_assign_spec, near_zero_spec.
Qed.

(** C1: the free functions compute their references over the indices of
    [a]: [a + b], [a - b] and [t * a] add each element to the zero of
    their result vector, [a * b] is element-wise, [dot] folds left to
    right from [0], and [a / t] scales by [1/t] computed in [T]. *)
Theorem free_functions_refine (a b : list T) (t : T) :
  add a b = zipM_from (fun x y => s ← s_add x y; s_add s_zero s) 0 a b /\
  sub a b = zipM_from (fun x y => s ← s_sub x y; s_add s_zero s) 0 a b /\
  mul a b = zipM_from s_mul 0 a b /\
  dot a b = fold2M_from (fun acc x y => p ← s_mul x y; s_add acc p) 0 a b s_zero /\
  scale t a = mapM (fun x => p ← s_mul t x; s_add s_zero p) a /\
  scale_r a t = scale t a /\
  divide a t = r ← s_div s_one t; mapM (fun x => p ← s_mul r x; s_add s_zero p) a.
Proof.
  split_and!; auto using add_spec, sub_spec, mul_spec, dot_spec, scale_spec, divide_spec.
Qed.

(** C6: [cross(a, b)] is the cross product on vectors of size 3; on a
    larger [a] the result keeps the size of [a], padded with zeros; on a
    smaller [a] it is undefined. *)
Theorem cross_behaviour (a b : list T) :
  (forall a0 a1 a2 b0 b1 b2 ra rb, a = a0 :: a1 :: a2 :: ra -> b = b0 :: b1 :: b2 :: rb ->
     cross a b = (c ← cross3_ref a0 a1 a2 b0 b1 b2; mret (c ++ mk T (length ra)))) /\
  (length a < 3 -> exists u, cross a b = UB u) /\
  (3 <= length a -> length b < 3 -> cross a b = UB (UB_out_of_range 2)).
Proof.
  split_and!.
  - intros a0 a1 a2 b0 b1 b2 ra rb -> ->. rewrite cross_spec by (simpl; lia).
    unfold cross3_ref, cross_term. cbn [vget lookup list_lookup].
    cbv [mbind outcome_bind mret outcome_ret].
    repeat (cbn; match goal with |- context [match ?m with Ok _ => _ | UB _ => _ end] => destruct m end);
      cbn; rewrite ?Nat.sub_0_r; reflexivity.
  - apply cross_short.
  - intros Ha Hb. rewrite cross_spec by done. unfold cross_term.
    destruct (vget_lt a 1) as (x & -> & _); [lia|]. simpl. by rewrite (vget_ge b 2) by lia.
Qed.

(** C8: Every operation that returns a vector returns one of the size of its
    left operand (or of [*this]). *)
Theorem ops_keep_length (a b c : list T) (t : T) (d : double) :
  (neg a = Ok c \/ plus_assign a b = Ok c \/ minus_assign a b = Ok c \/
   times_assign a d = Ok c \/ div_assign a d = Ok c \/ add a b = Ok c \/
   sub a b = Ok c \/ mul a b = Ok c \/ cross a b = Ok c \/ scale t a = Ok c \/
   divide a t = Ok c) ->
  length c = length a.
Proof.
  rewrite neg_spec, plus_assign_spec, minus_assign_spec, times_assign_spec,
    div_assign_spec, add_spec, sub_spec, mul_spec, scale_spec, divide_spec.
  intros [E|[E|[E|[E|[E|[E|[E|[E|[E|[E|E]]]]]]]]]];
    try (by eapply mapM_ok_length); try (by eapply zipM_from_length).
  - destruct (decide (3 <= length a)) as [Hl|Hl].
    + rewrite cross_spec in E by done.
      destruct (cross_term a b 1 2), (cross_term a b 2 0), (cross_term a b 0 1);
        simpl in E; try done.
      injection E as <-. simpl. rewrite length_mk. lia.
    + destruct (cross_short a b) as [u Hu]; [lia|]. congruence.
  - destruct (s_div s_one t); simpl in E; [by eapply mapM_ok_length | done].
Qed.

(** C7: The binary operations read the right operand only at the indices of
    the left one: they behave the same on [take (length a) b].  No size
    check compares the two operands. *)
Theorem binary_ops_ignore_tail (a b : list T) :
  add a b = add a (take (length a) b) /\ sub a b = sub a (take (length a) b) /\
  mul a b = mul a (take (length a) b) /\ dot a b = dot a (take (length a) b) /\
  plus_assign a b = plus_assign a (take (length a) b).
Proof.
  rewrite !add_spec, !sub_spec, !mul_spec, !dot_spec, !plus_assign_spec.
  split_and!; first [apply zipM_from_take | apply fold2M_from_take].
Qed.

End MVectorSpec.

(** ** Scalars whose arithmetic never fails *)

Section Exact.
Context {T : Type} `{Scalar T} `{!ExactScalar T}.

Lemma exact_add_then_add x y : is_ok (s ← s_add x y; s_add s_zero s) = true.
Proof. apply is_ok_bind; [apply exact_add | intros; apply exact_add]. Qed.

Lemma exact_sub_then_add x y : is_ok (s ← s_sub x y; s_add s_zero s) = true.
Proof. apply is_ok_bind; [apply exact_sub | intros; apply exact_add]. Qed.

Lemma exact_mul_then_add acc x y : is_ok (p ← s_mul x y; s_add acc p) = true.
Proof. apply is_ok_bind; [apply exact_mul | intros; apply exact_add]. Qed.

(** C4: With a right operand shorter than the left one, every binary operation
    reads [b[b.size()]] and has undefined behaviour there; nothing checks
    the sizes first. *)
Theorem short_operand_ub (a b : list T) :
  length b < length a ->
  add a b = UB (UB_out_of_range (length b)) /\ sub a b = UB (UB_out_of_range (length b)) /\
  mul a b = UB (UB_out_of_range (length b)) /\ dot a b = UB (UB_out_of_range (length b)) /\
  plus_assign a b = UB (UB_out_of_range (length b)) /\
  minus_assign a b = UB (UB_out_of_range (length b)).
Proof.
  intros Hl.
  rewrite add_spec, sub_spec, mul_spec, dot_spec, plus_assign_spec, minus_assign_spec.
  split_and!; first [apply (zipM_from_short _ 0) | apply (fold2M_from_short _ 0)]; try done;
    auto using exact_add_then_add, exact_sub_then_add, exact_mul_then_add, exact_add, exact_sub, exact_mul.
Qed.

End Exact.

(** ** Instances at concrete points *)

Lemma ops_keep_length_witness :
  @neg double _ [dzero] = Ok [dopp dzero] /\ length [dopp dzero] = length [dzero].
Proof.
  split; [vm_compute; reflexivity|].
  apply (@ops_keep_length double _ [dzero] [] [dopp dzero] dzero dzero).
  left. vm_compute. reflexivity.
Defined.

Lemma short_operand_ub_witness :
  length [dzero] < length [dzero; dzero] /\
  @add double _ [dzero; dzero] [dzero] = UB (UB_out_of_range 1).
Proof.
  split; [simpl; lia|].
  apply (@short_operand_ub double _ _ [dzero; dzero] [dzero]). simpl. lia.
Defined.

Lemma cross_behaviour_witness :
  @cross double _ [d_of_Z 1; dzero; dzero; d_of_Z 7] [dzero; d_of_Z 1; dzero] =
    (c ← cross3_ref (d_of_Z 1) dzero dzero dzero (d_of_Z 1) dzero; mret (c ++ mk double 1)).
Proof.
  exact (proj1 (@cross_behaviour double _ [d_of_Z 1; dzero; dzero; d_of_Z 7] [dzero; d_of_Z 1; dzero])
           (d_of_Z 1) dzero dzero dzero (d_of_Z 1) dzero [d_of_Z 7] [] eq_refl eq_refl).
Defined.
