(* ===== verification/MVectorDouble.v ===== *)
(** * [point = mvector<double>], [unit_vector] and [main]

    At [T = double] nothing is undefined except an index out of range: the
    operations are total on operands of matching sizes.  This file gives
    them closed forms.  It also holds [unit_vector], which instantiates
    only at [double]: in [a / a.length()], [T] is deduced from both
    operands, and [length()] returns [double].  It also holds the value
    that [main] prints.

    The theorems show the IEEE facts that the code relies on or breaks:
    the sum and the dot product are symmetric, and a negative zero is lost
    in the zero-initialised result vectors.  The last part evaluates the
    examples of the specification. *)

From Stdlib Require Import ZArith Lia Floats.SpecFloat.
From S2P Require Import Prelude Double Scalar MVector.

(** [using point = mvector<double>;] *)
Abbreviation point := (list double) (only parsing).

(** [unit_vector(a)]: [return a / a.length();]. *)
Definition unit_vector (a : point) : outcome point :=
  l ← mlength a; divide a l.

(** The vector [mvector<double> a{1,2,3,4,5}] of [main]. *)
Definition main_a : point := map d_of_Z [1; 2; 3; 4; 5]%Z.

(** The value that [main] writes to [std::cout]:
    [unit_vector(a).length()]. *)
Definition main_value : outcome double :=
  u ← unit_vector main_a; mlength u.

(** The dot product of doubles, left to right from [+0.0]. *)
Definition ddot (a b : point) : double :=
  fold_left (fun s xy => dadd s (dmul xy.1 xy.2)) (zip a b) dzero.

(** [x] with a negative zero turned into [+0.0]. *)
Definition pos_zero (x : double) : double :=
  match x with S754_zero _ => dzero | _ => x end.

(** ** Closed forms *)

Lemma dadd_zero_pos x : dadd dzero x = pos_zero x.
Proof. apply dadd_zero_l. Qed.

Lemma point_dot_total (a b : point) : length a <= length b -> dot a b = Ok (ddot a b).
Proof.
  intros Hl. rewrite dot_spec.
  exact (fold2M_from_total (fun s x y => dadd s (dmul x y)) 0 a b dzero Hl).
Qed.

(** [sqrt] of [dot(a, a)]: [length()] never fails on a [point]. *)
Lemma point_mlength (a : point) : mlength a = Ok (dsqrt (ddot a a)).
Proof. unfold mlength, length_sq. by rewrite point_dot_total. Qed.

(** [a + b] on points: [0.0 + (a[i] + b[i])] at each index of [a]. *)
Lemma point_add_total (a b : point) :
  length a <= length b -> add a b = Ok (zip_with (fun x y => dadd dzero (dadd x y)) a b).
Proof.
  intros Hl. rewrite add_spec.
  exact (zipM_from_total (fun x y => dadd dzero (dadd x y)) 0 a b Hl).
Qed.

(** [unit_vector(a)] on a point: [0.0 + (1.0 / sqrt(dot(a, a))) * a[i]];
    never undefined, whatever [a] is. *)
Lemma unit_vector_total (a : point) :
  unit_vector a = Ok (map (fun x => dadd dzero (dmul (ddiv (d_of_Z 1) (dsqrt (ddot a a))) x)) a).
Proof.
  unfold unit_vector. rewrite point_mlength. simpl. rewrite divide_spec. simpl.
  exact (mapM_total (fun x => dadd dzero (dmul (ddiv (d_of_Z 1) (dsqrt (ddot a a))) x)) a).
Qed.

(** The dot product of a vector of zeros with itself is [+0.0]. *)
Lemma ddot_zeros (a : point) :
  Forall (fun x => exists s, x = S754_zero s) a -> ddot a a = dzero.
Proof.
  intros Hz. unfold ddot. induction Hz as [|x a [s ->] _ IH]; [done|]. simpl.
  by destruct s.
Qed.

(** ** Properties *)

(** The sum of two points of the same size is symmetric, exactly, in
    IEEE arithmetic. *)
Theorem point_add_comm (a b : point) : length a = length b -> add a b = add b a.
Proof.
  intros Hl. rewrite !add_spec. apply zipM_from_flip; [|done].
  intros x y. simpl. by rewrite dadd_comm.
Qed.

(** The dot product of two points of the same size is symmetric. *)
Theorem point_dot_comm (a b : point) : length a = length b -> dot a b = dot b a.
Proof.
  intros Hl. rewrite !dot_spec. apply fold2M_from_flip; [|done].
  intros s x y. simpl. by rewrite dmul_comm.
Qed.

(** C22: the results of [a + b], [a - b] and [t * a] on points never hold
    a negative zero.  The code writes [0.0 + (a[i] + b[i])] and
    [0.0 + t * a[i]] into a zero-initialised result, so each element is
    the IEEE value with [-0.0] replaced by [+0.0].  [+=], which adds into
    [*this], keeps the IEEE sum, so [a += b] and [a + b] differ on
    [a = b = {-0.0}]. *)
Theorem point_zero_init_drops_negative_zero (a b : point) (t : double) :
  length a <= length b ->
  add a b = Ok (zip_with (fun x y => pos_zero (dadd x y)) a b) /\
  sub a b = Ok (zip_with (fun x y => pos_zero (dsub x y)) a b) /\
  scale t a = Ok (map (fun x => pos_zero (dmul t x)) a) /\
  plus_assign a b = Ok (zip_with dadd a b).
Proof.
  intros Hl. rewrite add_spec, sub_spec, scale_spec, plus_assign_spec. simpl. split_and!.
  - rewrite (zipM_from_total (fun x y => dadd dzero (dadd x y))) by done.
    f_equal. apply zip_with_ext; intros; [apply dadd_zero_pos | done | done].
  - rewrite (zipM_from_total (fun x y => dadd dzero (dsub x y))) by done.
    f_equal. apply zip_with_ext; intros; [apply dadd_zero_pos | done | done].
  - rewrite (mapM_total (fun x => dadd dzero (dmul t x))).
    f_equal. apply map_ext. intros. apply dadd_zero_pos.
  - by rewrite (zipM_from_total dadd).
Qed.

(** ** The examples of the specification *)

(** [dot({1,2,3}, {4,5,6}) == 32] and [cross({1,0,0}, {0,1,0}) == {0,0,1}]. *)
Theorem spec_examples_dot_cross :
  dot (map d_of_Z [1; 2; 3]%Z) (map d_of_Z [4; 5; 6]%Z) = Ok (d_of_Z 32) /\
  cross (map d_of_Z [1; 0; 0]%Z) (map d_of_Z [0; 1; 0]%Z) = Ok (map d_of_Z [0; 0; 1]%Z).
Proof. vm_compute. auto. Qed.

(** [near_zero({1e-9, -1e-9, 0})] is true and [near_zero({1e-7, 0, 0})]
    is false.  [1e-9] and [1e-7] are the correctly rounded quotients
    [1 / 10^9] and [1 / 10^7]. *)
Theorem spec_examples_near_zero :
  near_zero [ddiv (d_of_Z 1) (d_of_Z (10 ^ 9)); dopp (ddiv (d_of_Z 1) (d_of_Z (10 ^ 9))); dzero] = true /\
  near_zero [ddiv (d_of_Z 1) (d_of_Z (10 ^ 7)); dzero; dzero] = false.
Proof. vm_compute. auto. Qed.

(** C23: [unit_vector] of a zero vector (of any size, zeros of either
    sign) divides by a zero length: [1/0] is [+inf], and [inf * 0] is
    NaN, so every component is NaN. *)
Theorem unit_vector_zero (a : point) :
  Forall (fun x => exists s, x = S754_zero s) a ->
  unit_vector a = Ok (repeat S754_nan (length a)).
Proof.
  intros Hz. rewrite unit_vector_total, (ddot_zeros a Hz).
  change (ddiv (d_of_Z 1) (dsqrt dzero)) with (S754_infinity false).
  induction Hz as [|x a [s ->] _ IH]; [done|]. simpl. injection IH as ->. by destruct s.
Qed.

(** The [main] of [vector_test.cpp] prints [1]:
    [unit_vector({1,2,3,4,5}).length()] is exactly [1.0]. *)
Theorem main_prints_one : main_value = Ok (d_of_Z 1).
Proof. vm_compute. reflexivity. Qed.

(** ** Instances at concrete points *)

Lemma point_add_comm_witness :
  length (map d_of_Z [1; 2]%Z) = length (map d_of_Z [3; 4]%Z) /\
  add (map d_of_Z [1; 2]%Z) (map d_of_Z [3; 4]%Z) = add (map d_of_Z [3; 4]%Z) (map d_of_Z [1; 2]%Z).
Proof. split; [reflexivity|]. apply point_add_comm. reflexivity. Defined.

Lemma point_dot_comm_witness :
  length (map d_of_Z [1; 2]%Z) = length (map d_of_Z [3; 4]%Z) /\
  dot (map d_of_Z [1; 2]%Z) (map d_of_Z [3; 4]%Z) = dot (map d_of_Z [3; 4]%Z) (map d_of_Z [1; 2]%Z).
Proof. split; [reflexivity|]. apply point_dot_comm. reflexivity. Defined.

Lemma point_zero_init_drops_negative_zero_witness :
  length [dopp dzero] <= length [dopp dzero] /\
  add [dopp dzero] [dopp dzero] = Ok (zip_with (fun x y => pos_zero (dadd x y)) [dopp dzero] [dopp dzero]) /\
  sub [dopp dzero] [dopp dzero] = Ok (zip_with (fun x y => pos_zero (dsub x y)) [dopp dzero] [dopp dzero]) /\
  scale (dopp (d_of_Z 1)) [dopp dzero] = Ok (map (fun x => pos_zero (dmul (dopp (d_of_Z 1)) x)) [dopp dzero]) /\
  plus_assign [dopp dzero] [dopp dzero] = Ok (zip_with dadd [dopp dzero] [dopp dzero]).
Proof.
  split; [reflexivity|]. apply (point_zero_init_drops_negative_zero [dopp dzero] [dopp dzero]). reflexivity.
Defined.

Lemma unit_vector_zero_witness :
  Forall (fun x => exists s, x = S754_zero s) [dzero; dopp dzero; dzero] /\
  unit_vector [dzero; dopp dzero; dzero] = Ok (repeat S754_nan (length [dzero; dopp dzero; dzero])).
Proof.
  split; [repeat constructor; eexists; reflexivity|].
  apply unit_vector_zero. repeat constructor; eexists; reflexivity.
Defined.
