(* ===== verification/MVectorInt.v ===== *)
(** * [color = mvector<int>]: refinement of exact integer vectors

    At [T = int] every element operation is checked for signed overflow.
    The abstract specification of a [color] operation is the exact
    operation on vectors of [Z], with the whole result undefined when one
    component leaves the [int] range ([exact_or_overflow]).  The
    refinement theorem shows that the loops of [vector_test.cpp] implement
    it, for operands whose sizes match.  The algebraic laws of the
    specification then transfer to the code whenever it is defined.

    The integer instantiation also has behaviours that differ from the
    specification's contract.  [a / t] is [(1/t) * a] with [1/t] in integer
    arithmetic, so it is the zero vector for [|t| >= 2].  [dot] checks
    every product and every partial sum ([prefix_sums]), so it can
    overflow even when the final sum fits. *)

From Stdlib Require Import ZArith Lia.
From S2P Require Import Prelude Double Scalar CInt MVector.

Local Open Scope Z_scope.

(** [using color = mvector<int>;] *)
Abbreviation color := (list int) (only parsing).

(** The specification of an exact vector result: the result itself when
    every component fits in [int], signed overflow otherwise. *)
Definition exact_or_overflow (l : list Z) : outcome (list int) :=
  if forallb in_range l then Ok l else UB UB_overflow.

(** A [color] is well formed when every component is an [int]. *)
Definition wf_color (a : list Z) : bool := forallb in_range a.

(** ** From the checked loops to exact arithmetic *)

Lemma zipM_from_checked (f : Z -> Z -> Z) k (a b : list Z) :
  (length a <= length b)%nat ->
  zipM_from (fun x y => checked (f x y)) k a b = exact_or_overflow (zip_with f a b).
Proof.
  unfold exact_or_overflow. revert k b.
  induction a as [|x a IH]; intros k [|y b] Hl; simpl in *; try done; try lia.
  destruct (checked (f x y)) as [z|u] eqn:E; simpl.
  - apply checked_spec in E as [-> ->]. simpl.
    rewrite IH by lia. by destruct (forallb in_range (zip_with f a b)).
  - by apply checked_ub in E as [-> ->].
Qed.

Lemma mapM_checked (f : Z -> Z) (a : list Z) :
  mapM (fun x => checked (f x)) a = exact_or_overflow (map f a).
Proof.
  unfold exact_or_overflow. induction a as [|x a IH]; simpl; [done|].
  destruct (checked (f x)) as [z|u] eqn:E; simpl.
  - apply checked_spec in E as [-> ->]. simpl.
    rewrite IH. by destruct (forallb in_range (map f a)).
  - by apply checked_ub in E as [-> ->].
Qed.

(** [0 + s] after a checked [s]: the zero of [mk] changes nothing. *)
Lemma checked_then_add0 z : (s ← checked z; iadd 0 s) = checked z.
Proof.
  destruct (checked z) as [s|u] eqn:E; simpl; [|done].
  unfold iadd. rewrite Z.add_0_l. apply checked_spec in E as [-> Hr].
  unfold checked. by rewrite Hr.
Qed.

(** ** Refinement *)

Section Refine.
Context (a b : list int) (t : int).
Hypothesis Hl : (length a <= length b)%nat.

Lemma color_add_refine : add a b = exact_or_overflow (zip_with Z.add a b).
Proof.
  rewrite add_spec, (zipM_from_ext _ (fun x y => checked (x + y)))
    by (intros; apply checked_then_add0).
  by apply zipM_from_checked.
Qed.

Lemma color_sub_refine : sub a b = exact_or_overflow (zip_with Z.sub a b).
Proof.
  rewrite sub_spec, (zipM_from_ext _ (fun x y => checked (x - y)))
    by (intros; apply checked_then_add0).
  by apply zipM_from_checked.
Qed.

Lemma color_mul_refine : mul a b = exact_or_overflow (zip_with Z.mul a b).
Proof. rewrite mul_spec. by apply (zipM_from_checked Z.mul). Qed.

Lemma color_plus_assign_refine : plus_assign a b = exact_or_overflow (zip_with Z.add a b).
Proof. rewrite plus_assign_spec. by apply (zipM_from_checked Z.add). Qed.

Lemma color_minus_assign_refine : minus_assign a b = exact_or_overflow (zip_with Z.sub a b).
Proof. rewrite minus_assign_spec. by apply (zipM_from_checked Z.sub). Qed.

End Refine.

Lemma color_neg_refine (a : list int) : neg a = exact_or_overflow (map Z.opp a).
Proof. rewrite neg_spec. apply (mapM_checked Z.opp). Qed.

Lemma color_scale_refine (t : int) (a : list int) : scale t a = exact_or_overflow (map (Z.mul t) a).
Proof.
  rewrite scale_spec, (mapM_ext_outcome _ (fun x => checked (t * x)))
    by (intros; apply checked_then_add0).
  apply (mapM_checked (Z.mul t)).
Qed.

(** C3: on operands of matching sizes, each arithmetic operation of [color]
    is the exact operation on [Z] vectors when every component of the exact
    result fits in [int], and signed overflow otherwise. *)
Theorem color_ops_refine (a b : list int) (t : int) :
  (length a <= length b)%nat ->
  add a b = exact_or_overflow (zip_with Z.add a b) /\
  sub a b = exact_or_overflow (zip_with Z.sub a b) /\
  mul a b = exact_or_overflow (zip_with Z.mul a b) /\
  plus_assign a b = exact_or_overflow (zip_with Z.add a b) /\
  minus_assign a b = exact_or_overflow (zip_with Z.sub a b) /\
  neg a = exact_or_overflow (map Z.opp a) /\
  scale t a = exact_or_overflow (map (Z.mul t) a).
Proof.
  intros Hl. split_and!; auto using color_add_refine, color_sub_refine, color_mul_refine,
    color_plus_assign_refine, color_minus_assign_refine, color_neg_refine, color_scale_refine.
Qed.

(** ** Consequences of the refinement *)

Lemma exact_or_overflow_ok l c : exact_or_overflow l = Ok c -> c = l /\ wf_color l = true.
Proof. unfold exact_or_overflow, wf_color. destruct (forallb in_range l); by intros [= <-]. Qed.

Lemma exact_or_overflow_wf l : wf_color l = true -> exact_or_overflow l = Ok l.
Proof. unfold exact_or_overflow, wf_color. by intros ->. Qed.

Lemma zip_with_add_sub (a b : list Z) :
  length a = length b -> zip_with Z.sub (zip_with Z.add a b) b = a.
Proof.
  revert b. induction a as [|x a IH]; intros [|y b] Hl; simpl in *; try done.
  f_equal; [lia | apply IH; lia].
Qed.

Lemma zip_with_scale_distr (t : Z) (a b : list Z) :
  zip_with Z.add (map (Z.mul t) a) (map (Z.mul t) b) = map (Z.mul t) (zip_with Z.add a b).
Proof.
  revert b. induction a as [|x a IH]; intros [|y b]; simpl; try done.
  f_equal; [lia | apply IH].
Qed.

Lemma length_zip_with_eq {A B C} (f : A -> B -> C) (a : list A) (b : list B) :
  length a = length b -> length (zip_with f a b) = length a.
Proof. intros Hl. rewrite length_zip_with. lia. Qed.

(** C18: for colors of the same size, [(a + b) - b == a] whenever [a + b] is
    defined. *)
Theorem color_add_sub_cancel (a b c : list int) :
  wf_color a = true -> length a = length b -> add a b = Ok c -> sub c b = Ok a.
Proof.
  intros Ha Hl Hc. rewrite color_add_refine in Hc by lia.
  apply exact_or_overflow_ok in Hc as [-> _].
  rewrite color_sub_refine by (rewrite length_zip_with_eq; lia).
  rewrite zip_with_add_sub by lia.
  by apply exact_or_overflow_wf.
Qed.

(** The sum of two colors of the same size is symmetric, overflow
    included. *)
Theorem color_add_comm (a b : list int) : length a = length b -> add a b = add b a.
Proof.
  intros Hl. rewrite !color_add_refine by lia.
  f_equal. rewrite <- zip_with_flip. apply zip_with_ext; [|done..]. intros x y. simpl. lia.
Qed.

(** C19: [t * (a + b) == t * a + t * b] whenever the inner sum and the three
    products are defined; the outer sum is then defined too. *)
Theorem color_scale_distr (t : int) (a b c d e f : list int) :
  length a = length b -> add a b = Ok c -> scale t c = Ok d ->
  scale t a = Ok e -> scale t b = Ok f -> add e f = Ok d.
Proof.
  intros Hl Hc Hd He Hf.
  rewrite color_add_refine in Hc by lia. apply exact_or_overflow_ok in Hc as [-> _].
  rewrite color_scale_refine in Hd, He, Hf.
  apply exact_or_overflow_ok in Hd as [-> Hwf], He as [-> _], Hf as [-> _].
  rewrite color_add_refine by (rewrite !length_map; lia).
  rewrite zip_with_scale_distr. by apply exact_or_overflow_wf.
Qed.

(** ** Division, accumulation and conversions *)

Lemma map_const_zero {A} (a : list A) : map (fun _ => 0) a = replicate (length a) 0.
Proof. induction a as [|x a IH]; simpl; [done|]. by rewrite IH. Qed.

(** C9: [a / t] on a color is [(1/t) * a] with [1/t] in integer
    arithmetic: the zero vector for every [|t| >= 2], and undefined for
    [t == 0]; it never divides the components by [t]. *)
Theorem color_divide_truncates (a : list int) (t : int) :
  (2 <= Z.abs t -> divide a t = Ok (mk int (length a))) /\
  divide a 0 = UB UB_div_by_zero.
Proof.
  split; [intros Ht|done].
  rewrite divide_spec. simpl. rewrite idiv_one by lia.
  destruct (Z.eqb_spec t 1); [lia|]. destruct (Z.eqb_spec t (-1)); [lia|]. simpl.
  rewrite (mapM_ext_outcome _ (fun _ => Ok 0)) by done.
  rewrite (mapM_total (fun _ => 0)). unfold mk. simpl. by rewrite map_const_zero.
Qed.

(** The exact dot product over [Z]. *)
Definition zdot (a b : list Z) : Z :=
  fold_left (fun s xy => s + xy.1 * xy.2) (zip a b) 0.

(** The sum of the magnitudes of the products [a[i] * b[i]]. *)
Definition abs_products (a b : list Z) : Z :=
  fold_right (fun xy s => Z.abs (xy.1 * xy.2) + s) 0 (zip a b).

Lemma abs_products_nonneg a b : 0 <= abs_products a b.
Proof.
  unfold abs_products. induction (zip a b) as [|[x y] l IH]; simpl; lia.
Qed.

Lemma dot_fold_fits (a b : list Z) k acc :
  (length a <= length b)%nat -> Z.abs acc + abs_products a b <= INT_MAX ->
  fold2M_from (fun acc x y => p ← imul x y; iadd acc p) k a b acc =
    Ok (fold_left (fun s xy => s + xy.1 * xy.2) (zip a b) acc).
Proof.
  revert k b acc. induction a as [|x a IH]; intros k [|y b] acc Hl Hs; simpl in *; try done; try lia.
  pose proof (abs_products_nonneg a b) as Hn. unfold abs_products in Hs. simpl in Hs.
  fold (abs_products a b) in Hs.
  unfold imul, iadd, checked, in_range, INT_MIN, INT_MAX in *.
  assert (Hxy : - 2 ^ 31 <= x * y <= 2 ^ 31 - 1) by lia.
  assert (Hs' : - 2 ^ 31 <= acc + x * y <= 2 ^ 31 - 1) by lia.
  rewrite (proj2 (Z.leb_le _ _) (proj1 Hxy)), (proj2 (Z.leb_le _ _) (proj2 Hxy)). simpl.
  rewrite (proj2 (Z.leb_le _ _) (proj1 Hs')), (proj2 (Z.leb_le _ _) (proj2 Hs')). simpl.
  apply IH; lia.
Qed.

(** The partial sums [acc + p0], [acc + p0 + p1], ... of a list of
    products. *)
Fixpoint prefix_sums (acc : Z) (ps : list Z) : list Z :=
  match ps with [] => [] | p :: ps => (acc + p) :: prefix_sums (acc + p) ps end.

Lemma dot_fold_checked (a b : list Z) k acc :
  (length a <= length b)%nat ->
  fold2M_from (fun acc x y => p ← imul x y; iadd acc p) k a b acc =
    if forallb in_range (zip_with Z.mul a b) && forallb in_range (prefix_sums acc (zip_with Z.mul a b))
    then Ok (fold_left (fun s xy => s + xy.1 * xy.2) (zip a b) acc) else UB UB_overflow.
Proof.
  revert k b acc. induction a as [|x a IH]; intros k [|y b] acc Hl; simpl in *; try done; try lia.
  unfold imul, iadd, checked. destruct (in_range (x * y)); simpl; [|done].
  destruct (in_range (acc + x * y)); simpl; [apply IH; lia|]. by rewrite andb_false_r.
Qed.

(** C20: [dot(a, b)] on colors is the exact dot product whenever the sum of
    the magnitudes of the products fits in [int]: then no product and no
    partial sum overflows. *)
Theorem color_dot_exact (a b : list int) :
  (length a <= length b)%nat -> abs_products a b <= INT_MAX -> dot a b = Ok (zdot a b).
Proof.
  intros Hl Hs. rewrite dot_spec. apply dot_fold_fits; [done|]. simpl. lia.
Qed.

(** C21: [dot] on colors checks each product [a[i] * b[i]] and each partial
    sum for overflow, so it is the exact dot product exactly when every
    product and every partial sum is an [int], and undefined otherwise,
    also when the final sum fits. *)
Theorem color_dot_partial_overflow (a b : list int) :
  (length a <= length b)%nat ->
  dot a b = if forallb in_range (zip_with Z.mul a b) && forallb in_range (prefix_sums 0 (zip_with Z.mul a b))
            then Ok (zdot a b) else UB UB_overflow.
Proof. intros Hl. rewrite dot_spec. by apply dot_fold_checked. Qed.

(** ** Instances at concrete points *)

Lemma color_ops_refine_witness :
  (length [1; 2] <= length [3; 4; 5])%nat /\ add [1; 2] [3; 4; 5] = Ok [4; 6].
Proof.
  split; [simpl; lia|].
  destruct (color_ops_refine [1; 2] [3; 4; 5] 0) as [-> _]; [simpl; lia | reflexivity].
Defined.

Lemma color_add_sub_cancel_witness :
  wf_color [1; 2] = true /\ length [1; 2] = length [3; 4] /\ add [1; 2] [3; 4] = Ok [4; 6] /\
  sub [4; 6] [3; 4] = Ok [1; 2].
Proof.
  refine (conj eq_refl (conj eq_refl (conj eq_refl _))).
  exact (color_add_sub_cancel [1; 2] [3; 4] [4; 6] eq_refl eq_refl eq_refl).
Defined.

Lemma color_add_comm_witness :
  length [1; 2] = length [3; 4] /\ add [1; 2] [3; 4] = add [3; 4] [1; 2].
Proof. split; [reflexivity|]. apply color_add_comm. reflexivity. Defined.

Lemma color_scale_distr_witness :
  add [1; 2] [3; 4] = Ok [4; 6] /\ scale 2 [4; 6] = Ok [8; 12] /\
  scale 2 [1; 2] = Ok [2; 4] /\ scale 2 [3; 4] = Ok [6; 8] /\ add [2; 4] [6; 8] = Ok [8; 12].
Proof.
  refine (conj eq_refl (conj eq_refl (conj eq_refl (conj eq_refl _)))).
  exact (color_scale_distr 2 [1; 2] [3; 4] [4; 6] [8; 12] [2; 4] [6; 8]
           eq_refl eq_refl eq_refl eq_refl eq_refl).
Defined.

Lemma color_dot_exact_witness :
  (length [1; 2; 3] <= length [4; 5; 6])%nat /\ abs_products [1; 2; 3] [4; 5; 6] <= INT_MAX /\
  dot [1; 2; 3] [4; 5; 6] = Ok 32.
Proof.
  split_and!; [simpl; lia | vm_compute; discriminate |].
  apply (color_dot_exact [1; 2; 3] [4; 5; 6]); [simpl; lia | vm_compute; discriminate].
Defined.

Lemma color_divide_truncates_witness :
  2 <= Z.abs 2 /\ divide [10; 20; 30] 2 = Ok [0; 0; 0].
Proof.
  split; [simpl; lia|].
  apply (color_divide_truncates [10; 20; 30] 2). simpl. lia.
Defined.

Lemma color_dot_partial_overflow_witness :
  (length [2 ^ 30; 2 ^ 30; - 2 ^ 30]%Z <= length [1; 1; 1]%Z)%nat /\
  dot [2 ^ 30; 2 ^ 30; - 2 ^ 30] [1; 1; 1] = UB UB_overflow.
Proof.
  split; [simpl; lia|].
  rewrite (color_dot_partial_overflow [2 ^ 30; 2 ^ 30; - 2 ^ 30] [1; 1; 1]) by (simpl; lia).
  vm_compute. reflexivity.
Defined.
