(* ===== verification/Random.v ===== *)
(** * The [random] fills of [mvector] (lines 71-87)

    [random()] and [random(min, max)] declare, on each call, a fresh
    [std::uniform_real_distribution<double> uniform(min, max)] and a
    default-constructed [std::default_random_engine random_engine].  They
    then assign [elem = uniform(random_engine)] to each element of [*this].

    The engine and the distribution are library code.  They are modelled
    as libstdc++ (GCC's standard library) implements them:

    - [default_random_engine] is [minstd_rand0]: the state [x] is in
      [[1, 2^31 - 2]], a draw is [x := 16807 * x mod (2^31 - 1)], and it
      returns the new [x].  The default constructor seeds [x = 1].
    - [uniform_real_distribution<double>(a, b)] returns
      [generate_canonical<double, 53>(g) * (b - a) + a].  For [minstd_rand0]
      the range is [r = 2^31 - 2] and [log2 r] truncates to 30, so
      [generate_canonical] runs [max(1, (53 + 30 - 1) / 30) = 2] draws.  It
      accumulates [sum += double(g() - 1) * tmp] with [tmp] running through
      [1] and [r], divides by [tmp = r * r] (the [long double] product,
      rounded to [double]), and clamps a result [>= 1] to
      [nextafter(1, 0)].

    The state of a fill is the vector and the engine.  The theorems show
    that, because each call reseeds, the result of a fill depends only on
    the size of [*this]: two calls on vectors of the same size give the
    same values, and a shorter fill is a prefix of a longer one. *)

From Stdlib Require Import ZArith Lia Floats.SpecFloat.
From S2P Require Import Prelude Double Scalar CInt MVector.

Local Open Scope Z_scope.

(** ** [std::minstd_rand0] *)

Definition minstd_a : Z := 16807.
Definition minstd_m : Z := 2147483647.

(** The engine's state. *)
Record minstd := Minstd { minstd_x : Z }.

(** [std::default_random_engine random_engine;]: the default seed 1. *)
Definition minstd_default : minstd := Minstd 1.

(** [random_engine()]: advance the state and return it. *)
Definition minstd_next (g : minstd) : Z * minstd :=
  let x := (minstd_a * minstd_x g) mod minstd_m in (x, Minstd x).

(** [min()] and [max()] of the engine, and the size of its range. *)
Definition minstd_min : Z := 1.
Definition minstd_max : Z := minstd_m - 1.
Definition minstd_range : Z := minstd_max - minstd_min + 1.

(** ** [std::generate_canonical<double, 53>] *)

(** The number of draws, [max(1, (53 + log2r - 1) / log2r)] with
    [log2r = 30]. *)
Definition canonical_draws : nat := Z.to_nat (Z.max 1 ((53 + 30 - 1) / 30)).

(** The loop [for (k = m; k != 0; --k) { sum += double(g() - min) * tmp;
    tmp *= r; }].  [tmp] is kept exact: it is [r^k] where [k] is the number
    of draws so far, and [double(tmp)] is exact for the two values it
    takes. *)
Fixpoint canonical_loop (k : nat) (g : minstd) (sum : double) (tmp : Z)
    : double * Z * minstd :=
  match k with
  | O => (sum, tmp, g)
  | S k' =>
      let '(x, g') := minstd_next g in
      canonical_loop k' g' (dadd sum (dmul (d_of_Z (x - minstd_min)) (d_of_Z tmp)))
        (tmp * minstd_range)
  end.

(** [nextafter(1.0, 0.0)], the largest double below 1. *)
Definition one_minus_ulp : double := S754_finite false (2 ^ 53 - 1) (-53).

Definition generate_canonical (g : minstd) : double * minstd :=
  let '(sum, tmp, g') := canonical_loop canonical_draws g dzero 1 in
  let ret := ddiv sum (d_of_Z tmp) in
  (if SFleb (d_of_Z 1) ret then one_minus_ulp else ret, g').

(** [uniform(g)] for [std::uniform_real_distribution<double> uniform(a, b)]. *)
Definition uniform (a b : double) (g : minstd) : double * minstd :=
  let '(c, g') := generate_canonical g in (dadd (dmul c (dsub b a)) a, g').

Arguments uniform : simpl never.

(** ** The fills *)

Section Fill.
Context {T : Type} `{Scalar T}.

(** The loop [for (T& elem : *this) elem = uniform(random_engine);] from a
    given engine state: each element is a draw converted to [T]. *)
Definition fill_body (lo hi : double) (i : nat) (st : list T * minstd)
    : outcome (list T * minstd) :=
  let '(u, g') := uniform lo hi st.2 in
  x ← s_of_double u; v ← vset st.1 i x; mret (v, g').

(** [random(min, max)]: a fresh distribution and a default-seeded engine,
    then the fill.  The value it returns is a copy of [*this]. *)
Definition random_range (this : list T) (lo hi : double) : outcome (list T) :=
  fst <$> loop_from (fill_body lo hi) 0 (length this) (this, minstd_default).

(** [random()]: the same with the distribution [uniform(-1, 1)]. *)
Definition random (this : list T) : outcome (list T) :=
  random_range this (dopp (d_of_Z 1)) (d_of_Z 1).

End Fill.

(** ** What a fill computes *)

(** The [n] values [uniform(random_engine)] draws from the state [g]. *)
Fixpoint draws (lo hi : double) (n : nat) (g : minstd) : list double :=
  match n with
  | O => []
  | S n' => let '(u, g') := uniform lo hi g in u :: draws lo hi n' g'
  end.

Section FillSpec.
Context {T : Type} `{Scalar T}.

Lemma draws_S lo hi n g :
  draws lo hi (S n) g = (uniform lo hi g).1 :: draws lo hi n (uniform lo hi g).2.
Proof. cbn [draws]. by destruct (uniform lo hi g). Qed.

Lemma fill_body_app (lo hi : double) (p l : list T) x g :
  fill_body lo hi (length p) (p ++ x :: l, g) =
    y ← s_of_double (uniform lo hi g).1; mret (p ++ y :: l, (uniform lo hi g).2).
Proof.
  unfold fill_body. cbn [fst snd]. destruct (uniform lo hi g) as [u g']. cbn [fst snd].
  destruct (s_of_double u); [by rewrite bind_Ok, vset_app_r | done].
Qed.

Lemma fill_loop_app (lo hi : double) (p l : list T) (g : minstd) :
  fst <$> loop_from (fill_body lo hi) (length p) (length l) (p ++ l, g) =
    xs ← mapM s_of_double (draws lo hi (length l) g); mret (p ++ xs).
Proof.
  revert p g. induction l as [|x l IH]; intros p g.
  - cbn. by rewrite app_nil_r.
  - cbn [length loop_from]. rewrite fill_body_app, draws_S. cbn [mapM].
    destruct (s_of_double (uniform lo hi g).1) as [y|e]; [rewrite !bind_Ok | done].
    rewrite app_snoc_cons, (length_snoc p y).
    rewrite IH. destruct (mapM s_of_double _); [|done]. cbn. by rewrite <- app_assoc.
Qed.

(** [random(min, max)] converts to [T] the first [size()] draws of a
    default-seeded engine; the old contents of [*this] are not read. *)
Lemma random_range_spec (this : list T) (lo hi : double) :
  random_range this lo hi = mapM s_of_double (draws lo hi (length this) minstd_default).
Proof.
  unfold random_range. pose proof (fill_loop_app lo hi [] this minstd_default) as E.
  simpl in E. rewrite E. apply bind_ret_r.
Qed.

Lemma draws_prefix lo hi n m g : (n <= m)%nat -> draws lo hi n g = take n (draws lo hi m g).
Proof.
  revert m g. induction n as [|n IH]; intros [|m] g Hl; simpl; try done; [lia|].
  destruct (uniform lo hi g). f_equal. apply IH. lia.
Qed.

Lemma mapM_take {A B} (f : A -> outcome B) (l : list A) ys n :
  mapM f l = Ok ys -> mapM f (take n l) = Ok (take n ys).
Proof.
  revert ys n. induction l as [|x l IH]; intros ys n; cbn.
  - intros E. cbv [mret outcome_ret] in E. injection E as <-. by rewrite !take_nil.
  - destruct (f x) as [y|] eqn:Ef; cbn; [|done].
    destruct (mapM f l) as [zs|] eqn:E; cbn; [|done].
    intros E'. cbv [mret outcome_ret] in E'. injection E' as <-.
    destruct n as [|n]; cbn; [done|].
    rewrite Ef, (IH zs n eq_refl). done.
Qed.

(** C11: [random(min, max)] and [random()] restart a default-seeded engine on
    every call, so the values they write depend only on the size of
    [*this]: two calls on vectors of the same size write the same values. *)
Theorem random_depends_only_on_size (a b : list T) (lo hi : double) :
  length a = length b ->
  random_range a lo hi = random_range b lo hi /\ random a = random b.
Proof. intros Hl. unfold random. rewrite !random_range_spec, Hl. done. Qed.

(** C12: the values of a fill of [n] elements are the first [n] values of
    the fill of any larger vector: successive calls repeat one sequence. *)
Theorem random_prefix (a b : list T) (lo hi : double) (ys : list T) :
  (length a <= length b)%nat -> random_range b lo hi = Ok ys ->
  random_range a lo hi = Ok (take (length a) ys).
Proof.
  intros Hl Hb. rewrite random_range_spec in *.
  rewrite (draws_prefix lo hi (length a) (length b)) by done.
  by apply mapM_take.
Qed.

End FillSpec.

(** ** Instances at concrete points *)

Lemma random_depends_only_on_size_witness :
  length [dzero; dzero] = length [d_of_Z 7; d_of_Z 8] /\
  random [dzero; dzero] = random [d_of_Z 7; d_of_Z 8].
Proof.
  split; [reflexivity|].
  apply (random_depends_only_on_size [dzero; dzero] [d_of_Z 7; d_of_Z 8] dzero dzero). reflexivity.
Defined.

Lemma random_prefix_witness :
  exists ys, (length [dzero] <= length [dzero; dzero; dzero])%nat /\
    random_range [dzero; dzero; dzero] dzero (d_of_Z 1) = Ok ys /\
    random_range [dzero] dzero (d_of_Z 1) = Ok (take 1 ys).
Proof.
  eexists. split_and!; [simpl; lia | vm_compute; reflexivity |].
  apply (random_prefix [dzero] [dzero; dzero; dzero] dzero (d_of_Z 1)); [simpl; lia | vm_compute; reflexivity].
Defined.
