(* ===== verification/Display.v ===== *)
(** * [operator<<] for vectors (lines 172-183)

    [std::ostream& operator<<(std::ostream& output, const std::vector<T>& data)]
    writes ["["], then every element [x] followed by [", "] if its index
    [i] satisfies [i < data.size() - 1], then ["]"].  The comparison mixes
    a signed [ptrdiff_t] and the unsigned [size_t] [data.size() - 1].  For
    an empty vector that difference wraps to [2^64 - 1], but then the loop
    body does not run at all.

    The stream is modelled as the string written so far.  What
    [output << x] writes for one element is a parameter [put].  For [int]
    it is the decimal form with a leading [-] for negative values
    ([show_int]).  For [double] it is [show_double] of [DoubleFormat]
    ([%g] with six significant digits).

    The theorems give the text that [operator<<] writes, and prove a
    round trip for colors: a parser of that text recovers the vector.
    For points, [DoubleFormat] proves what each element's text reads
    back as.  [main_text] is what the [main] of [vector_test.cpp]
    writes. *)

From Stdlib Require Import ZArith Lia String Ascii DecimalString DecimalZ DecimalPos Floats.SpecFloat.
From S2P Require Import Prelude Double DoubleFormat Scalar CInt MVector MVectorDouble.

Local Open Scope string_scope.

(** [data.size() - 1] in [size_t] (64 bits). *)
Definition size_t_sub1 (n : nat) : Z := (Z.of_nat n - 1) mod 2 ^ 64.

Section Print.
Context {T : Type} (put : T -> string).

(** One iteration: [output << x; if (i < data.size() - 1) output << ", ";]. *)
Definition print_body (data : list T) (i : nat) (out : string) : outcome string :=
  x ← vget data i;
  let out := out ++ put x in
  mret (if Z.ltb (Z.of_nat i) (size_t_sub1 (length data)) then out ++ ", " else out).

(** [output << data]: the text written after [output]'s current text. *)
Definition print (data : list T) (output : string) : outcome string :=
  out ← loop_from (print_body data) 0 (length data) (output ++ "[");
  mret (out ++ "]").

End Print.

(** [output << x] for an [int] [x]: its decimal form. *)
Definition show_int (z : Z) : string := NilZero.string_of_int (Z.to_int z).

(** [std::cout << unit_vector(a).length() << "\n"] in [main]: the text
    written, with [output << x] for a [double] as [show_double]. *)
Definition main_text : outcome string := v ← main_value; mret (show_double v ++ "\n").

(** ** Reading a color back *)

(** The characters [output << x] writes for an [int]. *)
Definition is_num_char (c : ascii) : bool :=
  Ascii.eqb c "-" || (N.leb 48 (N_of_ascii c) && N.leb (N_of_ascii c) 57).

(** The longest prefix of number characters, and the rest. *)
Fixpoint span_num (s : string) : string * string :=
  match s with
  | EmptyString => (EmptyString, EmptyString)
  | String c s' =>
      if is_num_char c then let '(a, b) := span_num s' in (String c a, b) else (EmptyString, s)
  end.

Definition parse_int (s : string) : option Z := option_map Z.of_int (NilZero.int_of_string s).

(** Items [x, y, ..., z]] after the opening bracket; [fuel] bounds the
    number of items. *)
Fixpoint parse_items (fuel : nat) (s : string) : option (list Z) :=
  match fuel with
  | O => None
  | S fuel' =>
      let '(tok, rest) := span_num s in
      match parse_int tok with
      | None => None
      | Some z =>
          match rest with
          | String "]" EmptyString => Some [z]
          | String "," (String " " rest') => option_map (cons z) (parse_items fuel' rest')
          | _ => None
          end
      end
  end.

(** Parse the text of [operator<<] for a color. *)
Definition parse_color (s : string) : option (list Z) :=
  match s with
  | String c rest =>
      if Ascii.eqb c "[" then
        if String.eqb rest "]" then Some [] else parse_items (String.length rest) rest
      else None
  | EmptyString => None
  end.

(** ** The text written *)

Lemma size_t_sub1_small n : (1 <= n)%nat -> (Z.of_nat n <= 2 ^ 64)%Z -> size_t_sub1 n = (Z.of_nat n - 1)%Z.
Proof. intros H1 H2. unfold size_t_sub1. apply Z.mod_small. lia. Qed.

Section PrintSpec.
Context {T : Type} (put : T -> string).

Lemma print_body_app (p l : list T) x out :
  print_body put (p ++ x :: l) (length p) out =
    Ok (if Z.ltb (Z.of_nat (length p)) (size_t_sub1 (length (p ++ x :: l)))
        then (out ++ put x) ++ ", " else out ++ put x).
Proof. unfold print_body. by rewrite vget_app_r. Qed.

Ltac case_ltb := match goal with |- context [Z.ltb ?a ?b] => destruct (Z.ltb_spec a b) end.

Lemma print_loop_app (p l : list T) (out : string) :
  (Z.of_nat (length (p ++ l)) <= 2 ^ 64)%Z ->
  loop_from (print_body put (p ++ l)) (length p) (length l) out =
    Ok (out ++ String.concat ", " (map put l)).
Proof.
  revert p out. induction l as [|x l IH]; intros p out Hn.
  - cbn. by rewrite sapp_nil_r.
  - cbn [length loop_from]. rewrite print_body_app, bind_Ok.
    rewrite size_t_sub1_small by (rewrite length_app in *; simpl in *; lia).
    rewrite app_snoc_cons, (length_snoc p x), IH by (rewrite <- app_snoc_cons; done).
    rewrite !length_app. cbn [length].
    destruct l as [|y l]; cbn [length] in *; case_ltb; try lia; cbn;
      by rewrite ?sapp_nil_r, ?sapp_assoc.
Qed.

(** [output << data] appends ["["], the elements separated by [", "],
    and ["]"], for every vector a [size_t] can count. *)
Lemma print_spec (data : list T) (out : string) :
  (Z.of_nat (length data) <= 2 ^ 64)%Z ->
  print put data out = Ok (out ++ "[" ++ String.concat ", " (map put data) ++ "]").
Proof.
  intros Hn. unfold print.
  pose proof (print_loop_app [] data (out ++ "[") Hn) as E. simpl in E. rewrite E.
  cbn. by rewrite !sapp_assoc.
Qed.

End PrintSpec.

(** ** Round trip for colors *)

Fixpoint all_num (s : string) : bool :=
  match s with EmptyString => true | String c s' => is_num_char c && all_num s' end.

Definition starts_non_num (s : string) : bool :=
  match s with EmptyString => true | String c _ => negb (is_num_char c) end.

Lemma slength_app (a b : string) : String.length (a ++ b) = (String.length a + String.length b)%nat.
Proof. induction a as [|c a IH]; simpl; [done|]. by rewrite IH. Qed.

Lemma span_num_app (a rest : string) :
  all_num a = true -> starts_non_num rest = true -> span_num (a ++ rest) = (a, rest).
Proof.
  induction a as [|c a IH]; simpl; intros Ha Hr.
  - destruct rest as [|c rest]; simpl in *; [done|]. apply negb_true_iff in Hr. by rewrite Hr.
  - apply andb_true_iff in Ha as [Hc Ha]. by rewrite Hc, IH.
Qed.

Lemma all_num_uint (u : Decimal.uint) : all_num (NilEmpty.string_of_uint u) = true.
Proof. induction u; simpl; rewrite ?IHu; reflexivity. Qed.

(** The decimal form of an [int] is made of number characters and is not
    empty. *)
Lemma show_int_num (z : Z) : all_num (show_int z) = true /\ show_int z <> "".
Proof.
  unfold show_int, NilZero.string_of_int, NilZero.string_of_uint.
  destruct (Z.to_int z) as [u|u]; destruct u; simpl; rewrite ?all_num_uint; split; done.
Qed.

Lemma to_int_nonnil (z : Z) : Z.to_int z <> Decimal.Pos Decimal.Nil /\ Z.to_int z <> Decimal.Neg Decimal.Nil.
Proof.
  destruct z as [|p|p]; simpl; split; try discriminate;
    intros [= H]; by apply (DecimalPos.Unsigned.to_uint_nonnil p).
Qed.

Lemma parse_int_show (z : Z) : parse_int (show_int z) = Some z.
Proof.
  unfold parse_int, show_int. destruct (to_int_nonnil z) as [H1 H2].
  rewrite NilZero.isi by done. simpl. by rewrite DecimalZ.of_to.
Qed.

Lemma parse_items_show (z : Z) (zs : list Z) (fuel : nat) :
  (length zs < fuel)%nat ->
  parse_items fuel (String.concat ", " (map show_int (z :: zs)) ++ "]") = Some (z :: zs).
Proof.
  revert z fuel. induction zs as [|z' zs IH]; intros z [|fuel] Hf; try (simpl in Hf; lia).
  - cbn [map String.concat parse_items].
    rewrite span_num_app by (apply show_int_num || reflexivity).
    by rewrite parse_int_show.
  - cbn [parse_items].
    replace (String.concat ", " (map show_int (z :: z' :: zs)))
      with (show_int z ++ ", " ++ String.concat ", " (map show_int (z' :: zs))) by reflexivity.
    rewrite sapp_assoc.
    rewrite span_num_app by (apply show_int_num || reflexivity).
    rewrite parse_int_show. cbn [String.append].
    rewrite (IH z' fuel) by (simpl in Hf; lia). done.
Qed.

Lemma length_concat_show (z : Z) (zs : list Z) :
  (length zs <= String.length (String.concat ", " (map show_int (z :: zs))))%nat.
Proof.
  revert z. induction zs as [|z' zs IH]; intros z; [simpl; lia|].
  replace (String.concat ", " (map show_int (z :: z' :: zs)))
    with (show_int z ++ ", " ++ String.concat ", " (map show_int (z' :: zs))) by reflexivity.
  rewrite !slength_app. change (String.length ", ") with 2%nat. specialize (IH z'). simpl length. lia.
Qed.

Lemma parse_color_show (a : list Z) :
  parse_color ("[" ++ String.concat ", " (map show_int a) ++ "]") = Some a.
Proof.
  destruct a as [|z zs]; [reflexivity|].
  cbn [String.append parse_color]. rewrite (Ascii.eqb_refl "[").
  rewrite (proj2 (String.eqb_neq _ _)).
  - apply parse_items_show. rewrite slength_app. change (String.length "]") with 1%nat.
    pose proof (length_concat_show z zs). lia.
  - destruct (show_int_num z) as [Hn Hne]. cbn [map String.concat].
    destruct (show_int z) as [|c s'] eqn:E; [done|].
    destruct zs; cbn; intros [= Hc _]; subst c; discriminate.
Qed.

(** ** Properties *)

(** C13: [output << data] appends ["["], the elements separated by [", "]
    (no separator after the last one, and nothing between the brackets
    for an empty vector: the wrap-around of [data.size() - 1] is never
    reached), and ["]"]; for the color [{1, 2, 3}] it writes
    ["[1, 2, 3]"]. *)
Theorem print_format :
  (forall (T : Type) (put : T -> string) (data : list T) (out : string),
     (Z.of_nat (length data) <= 2 ^ 64)%Z ->
     print put data out = Ok (out ++ "[" ++ String.concat ", " (map put data) ++ "]")) /\
  print show_int [1; 2; 3]%Z "" = Ok "[1, 2, 3]" /\
  print show_int []%Z "" = Ok "[]".
Proof. split_and!; [intros; by apply print_spec | reflexivity | reflexivity]. Qed.

(** C14: the text that [operator<<] writes for a color reads back as the
    same color. *)
Theorem color_print_parse (a : list int) :
  (Z.of_nat (length a) <= 2 ^ 64)%Z ->
  exists s, print show_int a "" = Ok s /\ parse_color s = Some a.
Proof.
  intros Hn. eexists. split; [by apply print_spec|]. apply parse_color_show.
Qed.

Lemma color_print_parse_witness :
  (Z.of_nat (length [-12; 0; 2147483647]%Z) <= 2 ^ 64)%Z /\
  exists s, print show_int [-12; 0; 2147483647]%Z "" = Ok s /\ parse_color s = Some [-12; 0; 2147483647]%Z.
Proof.
  split; [simpl; lia|]. apply color_print_parse. simpl. lia.
Defined.
