(* ===== verification/CompoundAssign.v ===== *)
(** * Compound assignments: the receiver and the returned copy

    The member operators [+=], [-=], [*=] and [/=] are declared
    [mvector operator+=(const mvector &a)] and so on: they update [*this]
    and return [*this] by value, a copy.  The specification says instead
    that they "mutate the receiver in place and return it".  The two
    readings differ as soon as the result is used as a receiver again, as
    in [(x += a) += b].

    This file models expressions built from variables and compound
    assignments over a store of named vectors.  An expression evaluates
    to an lvalue (a variable) or a prvalue (a temporary).  A member call
    reads its receiver, runs the operation of [MVector], and writes the
    new contents back when the receiver is a variable.  [eval] returns the
    copy, as the code does; [eval_ref] returns the receiver itself, as
    the specification says.  [chain] applies several compound
    assignments in turn, as in [((x += a) -= b) *= t]; the theorem
    compares the two readings on every such chain. *)

From Stdlib Require Import String.
From stdpp Require Import gmap strings.
From S2P Require Import Prelude Double Scalar CInt MVector.

Section Compound.
Context {T : Type} `{Scalar T}.

(** An expression: a variable, or a compound assignment applied to an
    expression.  [op] is the member operation with its right operand
    bound, e.g. [fun this => plus_assign this a] for [e += a]. *)
Inductive expr :=
  | EVar (x : string)
  | ECompound (op : list T -> outcome (list T)) (e : expr).

(** The value category of a result. *)
Inductive value :=
  | LVal (x : string)
  | PrVal (v : list T).

Definition read (st : gmap string (list T)) (r : value) : outcome (list T) :=
  match r with
  | LVal x => match st !! x with Some v => Ok v | None => UB UB_invalid_pointer end
  | PrVal v => Ok v
  end.

Definition write (st : gmap string (list T)) (r : value) (v : list T) : gmap string (list T) :=
  match r with LVal x => <[x := v]> st | PrVal _ => st end.

(** The code: a member call updates its receiver and returns a copy. *)
Fixpoint eval (st : gmap string (list T)) (e : expr) : outcome (gmap string (list T) * value) :=
  match e with
  | EVar x => mret (st, LVal x)
  | ECompound op e =>
      '(st1, r) ← eval st e; this ← read st1 r; this' ← op this;
      mret (write st1 r this', PrVal this')
  end.

(** The specification's reading: the call returns the receiver itself. *)
Fixpoint eval_ref (st : gmap string (list T)) (e : expr) : outcome (gmap string (list T) * value) :=
  match e with
  | EVar x => mret (st, LVal x)
  | ECompound op e =>
      '(st1, r) ← eval_ref st e; this ← read st1 r; this' ← op this;
      mret (write st1 r this', match r with LVal x => LVal x | PrVal _ => PrVal this' end)
  end.

(** [e op_1 ... op_n]: compound assignments applied in turn, the
    innermost first, as in [((x += a) -= b) *= t]. *)
Fixpoint chain (ops : list (list T -> outcome (list T))) (e : expr) : expr :=
  match ops with
  | [] => e
  | op :: ops => chain ops (ECompound op e)
  end.

(** The operations applied in turn to a value. *)
Fixpoint run_ops (ops : list (list T -> outcome (list T))) (v : list T) : outcome (list T) :=
  match ops with
  | [] => Ok v
  | op :: ops => v' ← op v; run_ops ops v'
  end.

End Compound.

Arguments expr T : clear implicits.

(** ** Chains of calls *)

Section Chains.
Context {T : Type} `{Scalar T}.

(** Once the receiver is a temporary, the rest of the chain leaves the
    store alone and computes in the temporary. *)
Lemma eval_chain_prval (ops : list (list T -> outcome (list T))) (st st' : gmap string (list T)) e w w' :
  eval st e = Ok (st', PrVal w) -> run_ops ops w = Ok w' -> eval st (chain ops e) = Ok (st', PrVal w').
Proof.
  revert e w. induction ops as [|op ops IH]; intros e w He Hr; simpl in *; [congruence|].
  destruct (op w) as [w1|u] eqn:Ew; [|discriminate]. cbn in Hr.
  apply (IH _ w1); [|done]. simpl. rewrite He. cbn. by rewrite Ew.
Qed.

(** Under the specification's reading the variable stays the receiver
    and takes every update. *)
Lemma eval_ref_chain_lval (ops : list (list T -> outcome (list T))) (st st' : gmap string (list T)) e x w w' :
  eval_ref st e = Ok (st', LVal x) -> st' !! x = Some w -> run_ops ops w = Ok w' ->
  eval_ref st (chain ops e) = Ok (<[x := w']> st', LVal x).
Proof.
  revert e st' w. induction ops as [|op ops IH]; intros e st' w He Hx Hr; simpl in *.
  - injection Hr as <-. rewrite He. f_equal. f_equal. by rewrite insert_id.
  - destruct (op w) as [w1|u] eqn:Ew; [|discriminate]. cbn in Hr.
    rewrite (IH (ECompound op e) (<[x := w1]> st') w1); [by rewrite insert_insert_eq | | by rewrite lookup_insert_eq | done].
    simpl. rewrite He. cbn. rewrite Hx. cbn. by rewrite Ew.
Qed.

End Chains.

(** ** Properties *)

Section CompoundSpec.
Context {T : Type} `{Scalar T}.

(** C10: in a chain [x op_1 ... op_n] of compound assignments (any of
    [+=], [-=], [*=], [/=]), only the innermost call updates [x]: it gets
    the result [c] of [op_1], and the later calls work on the temporary
    that the first call returned, whose final value [d] is the result of
    the expression.  Under the specification's reading (each call returns
    its receiver) [x] ends as [d].  A single call gives the same store
    under both readings. *)
Theorem compound_assign_returns_copy (st : gmap string (list T)) (x : string)
    (op : list T -> outcome (list T)) (ops : list (list T -> outcome (list T))) (v c d : list T) :
  st !! x = Some v -> op v = Ok c -> run_ops ops c = Ok d ->
  eval st (chain ops (ECompound op (EVar x))) = Ok (<[x := c]> st, PrVal d) /\
  eval_ref st (chain ops (ECompound op (EVar x))) = Ok (<[x := d]> st, LVal x) /\
  fst <$> eval st (ECompound op (EVar x)) = fst <$> eval_ref st (ECompound op (EVar x)).
Proof.
  intros Hx Hc Hd. split_and!.
  - apply (eval_chain_prval _ _ _ _ c); [|done]. cbn. rewrite Hx. cbn. by rewrite Hc.
  - rewrite (eval_ref_chain_lval _ _ (<[x := c]> st) _ x c d); [by rewrite insert_insert_eq | | by rewrite lookup_insert_eq | done].
    cbn. rewrite Hx. cbn. by rewrite Hc.
  - cbn. rewrite Hx. cbn. by rewrite Hc.
Qed.

End CompoundSpec.

Lemma compound_assign_returns_copy_witness :
  let st : gmap string (list Z) := <["x"%string := [1%Z]]> ∅ in
  st !! "x"%string = Some [1%Z] /\ @plus_assign Z _ [1%Z] [2%Z] = Ok [3%Z] /\
  run_ops [fun t => minus_assign t [1%Z]; fun t => plus_assign t [4%Z]] [3%Z] = Ok [6%Z] /\
  eval st (chain [fun t => minus_assign t [1%Z]; fun t => plus_assign t [4%Z]]
             (ECompound (fun t => plus_assign t [2%Z]) (EVar "x"%string))) =
    Ok (<["x"%string := [3%Z]]> st, PrVal [6%Z]).
Proof.
  intros st. split_and!; [reflexivity | reflexivity | reflexivity |].
  apply (compound_assign_returns_copy st "x"%string _ _ [1%Z] [3%Z] [6%Z]); reflexivity.
Defined.
