(* ===== verification/PointerCheatSheet.v ===== *)
(** * [src/pointer_cheat_sheet.cpp]: [void_pointers] and [main]

    [void_pointers(void* data, int size)] increments the object that [data]
    points to.  It treats the object as a [char] when
    [size == sizeof(char)] (1), as an [int] when [size == sizeof(int)] (4),
    and does nothing otherwise.  [main] applies it to an [int x = 68] and a
    [char my_str = 'A'] and prints both.

    Memory is a finite map from addresses to bytes (stdpp's [gmap Z Z],
    values in [[0, 256)]).  An [int] occupies four bytes in little-endian
    order, and [char] is signed, as on x86-64 with GCC.  [++*pchar]
    converts [c + 1] back to [char] modulo 256 (implementation-defined,
    not undefined).  [++*pint] is signed [int] arithmetic, so it has
    undefined behaviour at [INT_MAX].  Accessing an address with no object
    is [UB UB_invalid_pointer].

    [declaring_pointers] is in [PointerDecls]; the [myfunc] overloads are
    in [MyFunc]. *)

From Stdlib Require Import ZArith Lia.
From stdpp Require Import gmap.
From S2P Require Import Prelude CInt.

Local Open Scope Z_scope.

(** Byte-addressed memory. *)
Abbreviation mem := (gmap Z Z) (only parsing).

Definition sizeof_char : Z := 1.
Definition sizeof_int : Z := 4.

Definition load_byte (m : mem) (a : Z) : outcome Z :=
  match m !! a with Some b => Ok b | None => UB UB_invalid_pointer end.

Definition store_byte (m : mem) (a : Z) (b : Z) : outcome mem :=
  match m !! a with Some _ => Ok (<[a := b mod 256]> m) | None => UB UB_invalid_pointer end.

(** A byte read as a signed [char]. *)
Definition schar_of_byte (b : Z) : Z := if Z.ltb b 128 then b else b - 256.

(** Four little-endian bytes read as a signed 32-bit [int]. *)
Definition load_int (m : mem) (a : Z) : outcome Z :=
  b0 ← load_byte m a; b1 ← load_byte m (a + 1); b2 ← load_byte m (a + 2); b3 ← load_byte m (a + 3);
  let u := b0 + 256 * b1 + 65536 * b2 + 16777216 * b3 in
  mret (if Z.ltb u (2 ^ 31) then u else u - 2 ^ 32).

(** Stores the four little-endian bytes of the 32-bit two's complement
    form of [z]. *)
Definition store_int (m : mem) (a : Z) (z : Z) : outcome mem :=
  let u := z mod 2 ^ 32 in
  m ← store_byte m a u; m ← store_byte m (a + 1) (u / 256);
  m ← store_byte m (a + 2) (u / 65536); store_byte m (a + 3) (u / 16777216).

(** The four bytes of [z] written at [a..a+3] of [m], little-endian: what
    [store_int] leaves in memory, and the initialisation of a fresh
    [int]. *)
Definition init_int (m : mem) (a z : Z) : mem :=
  <[a + 3 := (z mod 2 ^ 32 / 16777216) mod 256]> (<[a + 2 := (z mod 2 ^ 32 / 65536) mod 256]>
    (<[a + 1 := (z mod 2 ^ 32 / 256) mod 256]> (<[a := z mod 2 ^ 32 mod 256]> m))).

(** [void_pointers(data, size)]. *)
Definition void_pointers (m : mem) (data : Z) (size : Z) : outcome mem :=
  if Z.eqb size sizeof_char then
    c ← load_byte m data; store_byte m data (schar_of_byte c + 1)
  else if Z.eqb size sizeof_int then
    x ← load_int m data; x' ← iadd x 1; store_int m data x'
  else mret m.

(** [main]: [x] at address [ax], [my_str] at [ac].  Returns the two lines
    it prints, [x] in decimal and [my_str] as a character code. *)
Definition main_mem (ax ac : Z) : outcome mem :=
  m ← store_int (<[ax := 0]> (<[ax + 1 := 0]> (<[ax + 2 := 0]> (<[ax + 3 := 0]>
        (<[ac := 0]> ∅))))) ax 68;
  m ← store_byte m ac 65;
  m ← void_pointers m ax sizeof_int;
  void_pointers m ac sizeof_char.

Definition main_output (ax ac : Z) : outcome (Z * Z) :=
  m ← main_mem ax ac; x ← load_int m ax; c ← load_byte m ac; mret (x, schar_of_byte c).

(** ** Memory lemmas *)

(** An object occupies the address. *)
Definition mapped (m : mem) (a : Z) : bool := match m !! a with Some _ => true | None => false end.

(** Four consecutive addresses hold an [int]. *)
Definition int_mapped (m : mem) (a : Z) : bool :=
  mapped m a && mapped m (a + 1) && mapped m (a + 2) && mapped m (a + 3).

Lemma store_byte_mapped m a b : mapped m a = true -> store_byte m a b = Ok (<[a := b mod 256]> m).
Proof. unfold mapped, store_byte. by destruct (m !! a). Qed.

Lemma mapped_insert m a b c : mapped (<[a := b]> m) c = (Z.eqb a c || mapped m c).
Proof.
  unfold mapped. destruct (Z.eqb_spec a c) as [->|Hne].
  - by rewrite lookup_insert_eq.
  - by rewrite lookup_insert_ne.
Qed.

Lemma load_byte_insert_eq m a b : load_byte (<[a := b]> m) a = Ok b.
Proof. unfold load_byte. by rewrite lookup_insert_eq. Qed.

Lemma load_byte_insert_ne m a c b : a <> c -> load_byte (<[a := b]> m) c = load_byte m c.
Proof. intros Hne. unfold load_byte. by rewrite lookup_insert_ne. Qed.

(** The four bytes of a 32-bit value recombine to it. *)
Lemma bytes_recombine (u : Z) :
  0 <= u < 2 ^ 32 ->
  u mod 256 + 256 * ((u / 256) mod 256) + 65536 * ((u / 65536) mod 256) +
    16777216 * ((u / 16777216) mod 256) = u.
Proof. intros Hu. Z.div_mod_to_equations. lia. Qed.

(** The signed reading of the two's complement form of an [int]. *)
Lemma signed_of_mod (z : Z) :
  in_range z = true -> (if Z.ltb (z mod 2 ^ 32) (2 ^ 31) then z mod 2 ^ 32 else z mod 2 ^ 32 - 2 ^ 32) = z.
Proof.
  intros Hz. apply in_range_iff in Hz. unfold INT_MIN, INT_MAX in Hz.
  destruct (Z.ltb_spec (z mod 2 ^ 32) (2 ^ 31)); Z.div_mod_to_equations; lia.
Qed.

Ltac mapped_simpl :=
  repeat first [ rewrite mapped_insert | rewrite load_byte_insert_eq
               | rewrite load_byte_insert_ne by lia ];
  repeat match goal with |- context [Z.eqb ?x ?y] =>
    first [ rewrite (proj2 (Z.eqb_eq x y)) by lia | rewrite (proj2 (Z.eqb_neq x y)) by lia ] end.

Lemma store_int_spec m a z :
  int_mapped m a = true -> store_int m a z = Ok (init_int m a z).
Proof.
  unfold int_mapped. intros Hm. apply andb_true_iff in Hm as [Hm H3].
  apply andb_true_iff in Hm as [Hm H2]. apply andb_true_iff in Hm as [H0 H1].
  unfold store_int. rewrite store_byte_mapped by done. simpl.
  rewrite store_byte_mapped by (mapped_simpl; done). simpl.
  rewrite store_byte_mapped by (mapped_simpl; done). simpl.
  rewrite store_byte_mapped by (mapped_simpl; done). done.
Qed.

Lemma int_mapped_insert m a b v : int_mapped m a = true -> int_mapped (<[b := v]> m) a = true.
Proof.
  unfold int_mapped. rewrite !mapped_insert. intros H.
  repeat match goal with Hc : _ && _ = true |- _ => apply andb_true_iff in Hc as [? ?] end.
  repeat match goal with Hc : mapped m _ = true |- _ => rewrite Hc; clear Hc end.
  by rewrite !orb_true_r.
Qed.

(** The [int] written by [init_int] reads back, and no other address
    changes. *)
Lemma load_init_int m a z : in_range z = true -> load_int (init_int m a z) a = Ok z.
Proof.
  intros Hz. unfold load_int, init_int. mapped_simpl. simpl.
  rewrite bytes_recombine by (apply Z.mod_pos_bound; lia). f_equal. by apply signed_of_mod.
Qed.

Lemma init_int_frame m a z b : b < a \/ a + 3 < b -> init_int m a z !! b = m !! b.
Proof. intros Hb. unfold init_int. by rewrite !lookup_insert_ne by lia. Qed.

Lemma int_mapped_init m a b z : int_mapped m a = true -> int_mapped (init_int m b z) a = true.
Proof. intros H. unfold init_int. by do 4 apply int_mapped_insert. Qed.

Lemma int_mapped_init_self m a z : int_mapped (init_int m a z) a = true.
Proof. unfold init_int, int_mapped. mapped_simpl. by rewrite !orb_true_r. Qed.

(** Storing an [int] and loading it back gives it back, and changes no
    other address. *)
Lemma store_load_int m a z :
  int_mapped m a = true -> in_range z = true ->
  exists m', store_int m a z = Ok m' /\ load_int m' a = Ok z /\
    (forall b, b < a \/ a + 3 < b -> m' !! b = m !! b).
Proof.
  intros Hm Hz. rewrite store_int_spec by done. eexists. split; [done|]. split.
  - by apply load_init_int.
  - by apply init_int_frame.
Qed.

Lemma schar_succ_byte (b : Z) : 0 <= b < 256 -> (schar_of_byte b + 1) mod 256 = (b + 1) mod 256.
Proof.
  intros Hb. unfold schar_of_byte. destruct (Z.ltb_spec b 128); [done|].
  replace (b - 256 + 1) with ((b + 1) + (-1) * 256) by lia. apply Z_mod_plus_full.
Qed.

Lemma load_int_insert_ne m a b v : b < a \/ a + 3 < b -> load_int (<[b := v]> m) a = load_int m a.
Proof. intros Hb. unfold load_int. rewrite !load_byte_insert_ne by lia. done. Qed.

Lemma load_int_frame m m' a :
  (forall b, a <= b <= a + 3 -> m' !! b = m !! b) -> load_int m' a = load_int m a.
Proof. intros Hf. unfold load_int, load_byte. rewrite !Hf by lia. done. Qed.

(** [++*pint] on an [int] below [INT_MAX]. *)
Lemma void_pointers_int_ok (m : mem) (a x : Z) :
  int_mapped m a = true -> load_int m a = Ok x -> in_range x = true -> x < INT_MAX ->
  exists m', void_pointers m a sizeof_int = Ok m' /\ load_int m' a = Ok (x + 1) /\
    (forall b, b < a \/ a + 3 < b -> m' !! b = m !! b).
Proof.
  intros Hm Hx Hr Hlt. apply in_range_iff in Hr.
  unfold void_pointers. simpl. rewrite Hx. simpl. unfold iadd, checked.
  assert (in_range (x + 1) = true) as Hr1 by (apply in_range_iff; unfold INT_MAX in *; lia).
  rewrite Hr1. simpl. by apply store_load_int.
Qed.

Lemma void_pointers_char_ok (m : mem) (a b : Z) :
  m !! a = Some b -> 0 <= b < 256 -> void_pointers m a sizeof_char = Ok (<[a := (b + 1) mod 256]> m).
Proof.
  intros Hb Hr. unfold void_pointers, load_byte, store_byte. simpl. rewrite Hb. simpl.
  by rewrite schar_succ_byte.
Qed.

(** ** Properties *)

(** C5: on an [int] object, [void_pointers(data, sizeof(int))] increments
    it and leaves every other address unchanged; at [INT_MAX] the
    increment is signed overflow. *)
Theorem void_pointers_int (m : mem) (a x : Z) :
  int_mapped m a = true -> load_int m a = Ok x -> in_range x = true ->
  (x < INT_MAX -> exists m', void_pointers m a sizeof_int = Ok m' /\ load_int m' a = Ok (x + 1) /\
                    (forall b, b < a \/ a + 3 < b -> m' !! b = m !! b)) /\
  (x = INT_MAX -> void_pointers m a sizeof_int = UB UB_overflow).
Proof.
  intros Hm Hx Hr. split; intros Hlt.
  - by apply void_pointers_int_ok.
  - subst x. unfold void_pointers. simpl. rewrite Hx. reflexivity.
Qed.

(** C16: on a [char] object, [void_pointers(data, sizeof(char))] adds one to
    its byte modulo 256 ([char] arithmetic wraps); other sizes leave the
    memory unchanged. *)
Theorem void_pointers_char_other (m : mem) (a b size : Z) :
  (m !! a = Some b -> 0 <= b < 256 ->
     void_pointers m a sizeof_char = Ok (<[a := (b + 1) mod 256]> m)) /\
  (size <> sizeof_char -> size <> sizeof_int -> void_pointers m a size = Ok m).
Proof.
  split.
  - apply void_pointers_char_ok.
  - intros H1 H4. unfold void_pointers.
    rewrite (proj2 (Z.eqb_neq _ _) H1), (proj2 (Z.eqb_neq _ _) H4). done.
Qed.

(** C17: [main] prints [69] and [B]: [x] goes from 68 to 69 and [my_str]
    from ['A'] (65) to ['B'] (66), wherever the two objects are placed. *)
Theorem main_prints_69_B (ax ac : Z) : (ac < ax \/ ax + 3 < ac) -> main_output ax ac = Ok (69, 66).
Proof.
  intros Hd. unfold main_output, main_mem.
  set (m0 := <[ax := 0]> (<[ax + 1 := 0]> (<[ax + 2 := 0]> (<[ax + 3 := 0]> (<[ac := 0]> ∅))))).
  assert (Hm0 : int_mapped m0 ax = true) by (subst m0; unfold int_mapped; mapped_simpl; done).
  destruct (store_load_int m0 ax 68 Hm0 eq_refl) as (m1 & Hs1 & Hl1 & Hf1).
  pose proof Hs1 as Em1. rewrite store_int_spec in Em1 by done. injection Em1 as Em1.
  assert (Hm1 : int_mapped m1 ax = true) by (rewrite <- Em1; by apply int_mapped_init).
  rewrite Hs1. cbn [mbind outcome_bind].
  assert (Hc1 : m1 !! ac = Some 0).
  { rewrite Hf1 by lia. subst m0. rewrite !lookup_insert_ne by lia. apply lookup_insert_eq. }
  unfold store_byte at 1. rewrite Hc1. cbn [mbind outcome_bind].
  destruct (void_pointers_int_ok (<[ac := 65 mod 256]> m1) ax 68) as (m3 & -> & Hl3 & Hf3);
    [by apply int_mapped_insert | by rewrite load_int_insert_ne by lia | done | unfold INT_MAX; lia |].
  cbn [mbind outcome_bind].
  rewrite (void_pointers_char_ok m3 ac 65); [| rewrite Hf3 by lia; apply lookup_insert_eq | lia].
  cbn [mbind outcome_bind]. rewrite load_int_insert_ne, Hl3 by lia. cbn [mbind outcome_bind].
  by rewrite load_byte_insert_eq.
Qed.

(** ** Instances at concrete points *)

Definition demo_mem : mem := <[100 := 68]> (<[101 := 0]> (<[102 := 0]> (<[103 := 0]> (<[200 := 65]> ∅)))).

Lemma void_pointers_int_witness :
  int_mapped demo_mem 100 = true /\ load_int demo_mem 100 = Ok 68 /\ in_range 68 = true /\
  exists m', void_pointers demo_mem 100 sizeof_int = Ok m' /\ load_int m' 100 = Ok 69 /\
    (forall b, b < 100 \/ 100 + 3 < b -> m' !! b = demo_mem !! b).
Proof.
  split_and!; [reflexivity | reflexivity | reflexivity |].
  apply (void_pointers_int demo_mem 100 68); [reflexivity | reflexivity | reflexivity | unfold INT_MAX; lia].
Defined.

Lemma void_pointers_char_other_witness :
  demo_mem !! 200 = Some 65 /\ void_pointers demo_mem 200 sizeof_char = Ok (<[200 := 66]> demo_mem).
Proof.
  split; [reflexivity|].
  apply (void_pointers_char_other demo_mem 200 65 2); [reflexivity | lia].
Defined.

Lemma main_prints_69_B_witness : (8192 < 4096 \/ 4096 + 3 < 8192) /\ main_output 4096 8192 = Ok (69, 66).
Proof. split; [lia|]. apply main_prints_69_B. lia. Defined.
