(* ===== verification/PointerDecls.v ===== *)
(** * [src/pointer_cheat_sheet.cpp]: [declaring_pointers] (lines 4-12)

    [declaring_pointers] declares an [int x = 69] and four pointers whose
    types differ in where [const] sits:
    - [int * p1;]                   pointer and pointee both writable;
    - [const int * p2;]             the pointee is read-only;
    - [int * const p3 = &x;]        the pointer is fixed;
    - [const int * const p4 = &x;]  both.
    The note of line 11 says that a [const] pointer must be initialised.

    A pointer type is a [ptr_ty], with one flag for each [const].  A
    declaration is a [decl]; [declare] adds it to a [frame], the local
    state of the function.  The frame holds the memory of
    [PointerCheatSheet], the addresses of the [int] variables, and each
    pointer's type and value.  A pointer declared without an initialiser
    has an indeterminate value ([Indet]).  [declare] returns [None] for a
    declaration that the compiler rejects.

    The lemmas give the frame that [declaring_pointers] builds, and show
    that dropping the initialiser of one of the four declarations makes
    the function ill-formed exactly when that pointer is [const].  The
    loads, stores and assignments that the comments of lines 7-10
    describe are not statements of the source, so they are not modelled;
    the reads and writes that [void_pointers] does through a pointer are
    in [PointerCheatSheet]. *)

From Stdlib Require Import ZArith Lia String.
From stdpp Require Import gmap strings.
From S2P Require Import Prelude CInt PointerCheatSheet.

Local Open Scope Z_scope.

(** [T * p] with the two [const] qualifiers of C++: on the pointee
    ([const int *]) and on the pointer itself ([int * const]). *)
Record ptr_ty := PtrTy { pointee_const : bool; ptr_const : bool }.

#[export] Instance ptr_ty_eq_dec : EqDecision ptr_ty.
Proof. solve_decision. Defined.

(** The value of a pointer: indeterminate, or an address. *)
Inductive pval := Indet | Addr (a : Z).

#[export] Instance pval_eq_dec : EqDecision pval.
Proof. solve_decision. Defined.

(** [ty name = &init;], or [ty name;] when [d_init] is [None]. *)
Record decl := Decl { d_name : string; d_ty : ptr_ty; d_init : option string }.

Record frame := Frame {
  fr_mem : mem;
  fr_vars : gmap string Z;
  fr_ptrs : gmap string (ptr_ty * pval)
}.

Definition set_mem (fr : frame) (m : mem) : frame := Frame m (fr_vars fr) (fr_ptrs fr).

Definition set_ptr (fr : frame) (p : string) (tv : ptr_ty * pval) : frame :=
  Frame (fr_mem fr) (fr_vars fr) (<[p := tv]> (fr_ptrs fr)).

(** One declaration.  A [const] pointer without an initialiser is
    ill-formed (line 11); [&x] must name an [int] variable. *)
Definition declare (fr : frame) (d : decl) : option frame :=
  match d_init d with
  | None => if ptr_const (d_ty d) then None else Some (set_ptr fr (d_name d) (d_ty d, Indet))
  | Some x => a ← fr_vars fr !! x; Some (set_ptr fr (d_name d) (d_ty d, Addr a))
  end.

Fixpoint declare_all (fr : frame) (ds : list decl) : option frame :=
  match ds with
  | [] => Some fr
  | d :: ds => fr ← declare fr d; declare_all fr ds
  end.

(** The four declarations of lines 7-10. *)
Definition declaring_pointers_decls : list decl :=
  [ Decl "p1" (PtrTy false false) None;
    Decl "p2" (PtrTy true false) None;
    Decl "p3" (PtrTy false true) (Some "x");
    Decl "p4" (PtrTy true true) (Some "x") ].

(** The body of [declaring_pointers], with [x] placed at [ax]. *)
Definition declaring_pointers (ax : Z) : option frame :=
  declare_all (Frame (init_int ∅ ax 69) {[ "x" := ax ]} ∅) declaring_pointers_decls.


(** ** The frame built *)

(** The frame [declaring_pointers] builds: [x = 69] at [ax], [p1] and
    [p2] indeterminate, [p3] and [p4] pointing at [x]. *)
Definition decl_frame (ax : Z) : frame :=
  Frame (init_int ∅ ax 69) {[ "x" := ax ]}
    (<["p4" := (PtrTy true true, Addr ax)]> (<["p3" := (PtrTy false true, Addr ax)]>
    (<["p2" := (PtrTy true false, Indet)]> (<["p1" := (PtrTy false false, Indet)]> ∅)))).

Lemma declaring_pointers_eq ax : declaring_pointers ax = Some (decl_frame ax).
Proof. reflexivity. Qed.

(** Dropping the initialiser of one of the four declarations makes the
    function ill-formed exactly when that pointer is [const] (the note of
    line 11). *)
Lemma declaring_pointers_uninit (ax : Z) (i : nat) (d : decl) :
  declaring_pointers_decls !! i = Some d ->
  declare_all (Frame (init_int ∅ ax 69) {[ "x" := ax ]} ∅)
    (<[i := Decl (d_name d) (d_ty d) None]> declaring_pointers_decls) = None <->
  ptr_const (d_ty d) = true.
Proof.
  intros Hd. do 4 (destruct i as [|i]; [injection Hd as <-; split; done|]). done.
Qed.
