(* ===== verification/MyFunc.v ===== *)
(** * [src/pointer_cheat_sheet.cpp]: the [myfunc] overloads (lines 38-56)

    Three overloads take a [Shape] and call its [area()] member.
    - Line 40 takes [const Shape] by value: the parameter is a copy.
    - Line 45 takes [const Shape*]: [shape_in->area()] dereferences it.
    - Line 53 takes [const Shape&]: no copy.
    The result of [area()] is discarded.

    The file never declares [Shape], so it is an interface here: the class
    [Shape Obj R].  [Obj] is the type of complete objects, those of [Shape]
    and of its derived classes.  [area] is [Shape::area() const] as a
    call dispatches it on the object's dynamic type.  [shape_copy] is
    [Shape]'s copy constructor: it keeps the [Shape] part of an object.

    Objects live in a store from addresses to objects.  A call returns its
    trace of [event]s: copy constructions, [area()] calls and destructions.
    [area] is [const], so no call changes the store.  The store is
    therefore an input only.

    Which overload a call selects is a rule of C++, not code of the
    repository, and no call of [myfunc] appears in the file, so overload
    resolution is not modelled.  The bodies are. *)

From Stdlib Require Import ZArith List.
From stdpp Require Import base gmap list.
From S2P Require Import Prelude.

Local Open Scope Z_scope.

(** The member functions of [Shape] the overloads use. *)
Class Shape (Obj R : Type) := {
  area : Obj -> R;
  shape_copy : Obj -> Obj
}.

(** What a call does to objects, in order. *)
Inductive event (Obj : Type) :=
  | ECopy (from to : Obj)
  | ECall (o : Obj)
  | EDestroy (o : Obj).
Arguments ECopy {Obj}. Arguments ECall {Obj}. Arguments EDestroy {Obj}.

Section Bodies.
Context {Obj R : Type} `{!Shape Obj R}.

(** Line 40: [myfunc(const Shape shape_in)] called with the object at
    [a]: [shape_in] is copy-constructed, [shape_in.area()] runs on the
    copy, and the copy is destroyed at the end of the call. *)
Definition myfunc_value (st : gmap Z Obj) (a : Z) : outcome (list (event Obj)) :=
  match st !! a with
  | Some o => let shape_in := shape_copy o in mret [ECopy o shape_in; ECall shape_in; EDestroy shape_in]
  | None => UB UB_invalid_pointer
  end.

(** Line 45: [myfunc(const Shape* shape_in)]: [shape_in->area()] is
    undefined for a null or dangling pointer. *)
Definition myfunc_ptr (st : gmap Z Obj) (shape_in : option Z) : outcome (list (event Obj)) :=
  match shape_in with
  | None => UB UB_invalid_pointer
  | Some a => match st !! a with Some o => mret [ECall o] | None => UB UB_invalid_pointer end
  end.

(** Line 53: [myfunc(const Shape& shape_in)]: [area()] on the object
    itself. *)
Definition myfunc_ref (st : gmap Z Obj) (a : Z) : outcome (list (event Obj)) :=
  match st !! a with Some o => mret [ECall o] | None => UB UB_invalid_pointer end.

(** The values the [area()] calls of a trace compute (and discard). *)
Definition areas (evs : list (event Obj)) : list R :=
  omap (fun e => match e with ECall o => Some (area o) | _ => None end) evs.

End Bodies.
